(** * FaultDetection: the frame pipeline of [helper.py] and the zip batch
      of [apps/upload2.py]

    A shallow embedding of the Streamlit/YOLO application.  The external
    collaborators (OpenCV capture, the YOLO engine, pytubefix, the
    Streamlit widgets) are inputs of the model; everything the Python
    code does with them is written out as state-passing code over a
    chronological trace of the calls it makes. *)

From Stdlib Require Import ZArith QArith Qround String Ascii List Lia.
From stdpp Require Import base list strings gmap.

Local Open Scope string_scope.
Local Open Scope Z_scope.
Local Open Scope list_scope.

(** ** Data *)

(** A decoded image: its dimensions and an identifier standing for the
    pixel content (the pixels themselves are opaque to the pipeline). *)
Inductive ChannelOrder := BGR | RGB.

Record Frame := mkFrame {
  width : Z;
  height : Z;
  content : nat;
  channels : ChannelOrder
}.

(** A Python exception, kept as the text [str(e)] gives. *)
Definition Exn := string.

(** What a call to the inference engine looks like from the pipeline:
    [model.track(image, conf=, persist=, tracker=)] or
    [model.predict(image, conf=)]. *)
Inductive Request :=
| Track (image : Frame) (conf : Q) (persist : bool) (tracker : option string)
| Predict (image : Frame) (conf : Q).

(** The argument of [cv2.VideoCapture]: a device index or a path/URL. *)
Inductive Source :=
| Device (index : Z)
| Url (location : string).

(** The observable calls, in the order they are made. *)
Inductive Event :=
| EvVideoCapture (src : Source)            (* cv2.VideoCapture(src) *)
| EvRead                                   (* vid_cap.read() *)
| EvRelease                                (* vid_cap.release() *)
| EvInfer (r : Request)                    (* model.track / model.predict *)
| EvImage (img : Frame) (caption : string) (* st_frame.image / st.image *)
| EvWrite (text : string)                  (* st.write *)
| EvError (msg : string).                  (* st.error / st.sidebar.error *)

Inductive Outcome (A : Type) :=
| Ret (a : A)
| Raise (e : Exn).
Arguments Ret {A} a.
Arguments Raise {A} e.

(** ** The effect monad: engine state, capture flag, trace, exceptions *)

Module Py.
Section Monad.
(** [S] is the private state of the inference engine (the tracker
    context kept by [persist=True] lives there). *)
Context {S : Type}.

Record World := mkWorld {
  engine : S;
  opened : bool;          (* what vid_cap.isOpened() answers *)
  trace : list Event
}.

Definition M (A : Type) : Type := World -> Outcome A * World.

Definition ret {A} (a : A) : M A := fun w => (Ret a, w).

Definition bind {A B} (m : M A) (k : A -> M B) : M B :=
  fun w => match m w with
           | (Ret a, w') => k a w'
           | (Raise e, w') => (Raise e, w')
           end.

Definition raise {A} (e : Exn) : M A := fun w => (Raise e, w).

(** [try: body except Exception as e: handler(e)] *)
Definition try_except {A} (body : M A) (handler : Exn -> M A) : M A :=
  fun w => match body w with
           | (Ret a, w') => (Ret a, w')
           | (Raise e, w') => handler e w'
           end.

Definition emit (ev : Event) : M unit :=
  fun w => (Ret tt, mkWorld (engine w) (opened w) (trace w ++ [ev])).

Definition set_opened (b : bool) : M unit :=
  fun w => (Ret tt, mkWorld (engine w) b (trace w)).

Definition is_opened : M bool := fun w => (Ret (opened w), w).

(** [for x in xs: body(x)] *)
Fixpoint for_each {A} (xs : list A) (body : A -> M unit) : M unit :=
  match xs with
  | [] => ret tt
  | x :: xs' => bind (body x) (fun _ => for_each xs' body)
  end.
End Monad.
Arguments World : clear implicits.
Arguments M : clear implicits.
End Py.
Import Py.

#[global] Instance M_ret {S} : MRet (M S) := fun A => @ret S A.
#[global] Instance M_bind {S} : MBind (M S) := fun A B k m => @bind S A B m k.

(** The engine: given its state and a request, the annotated image
    ([res[0].plot()]) or an exception, and its next state. *)
Definition Model (S : Type) : Type := S -> Request -> Outcome Frame * S.

(** ** Projections of a trace *)

Definition emitted (t : list Event) : list Frame :=
  omap (fun ev => match ev with EvImage f _ => Some f | _ => None end) t.

Definition requests (t : list Event) : list Request :=
  omap (fun ev => match ev with EvInfer r => Some r | _ => None end) t.

Definition errors (t : list Event) : list string :=
  omap (fun ev => match ev with EvError m => Some m | _ => None end) t.

Definition captures (t : list Event) : list Source :=
  omap (fun ev => match ev with EvVideoCapture s => Some s | _ => None end) t.

Definition is_release (ev : Event) : bool :=
  match ev with EvRelease => true | _ => false end.

Definition is_read (ev : Event) : bool :=
  match ev with EvRead => true | _ => false end.

Definition releases (t : list Event) : nat := length (List.filter is_release t).
Definition reads (t : list Event) : nat := length (List.filter is_read t).

(** ** Python and library primitives *)

(** [int(x)] on a number: truncation toward zero.  The only float the
    code truncates is [720 * (9 / 16)]; 9/16 and 405 are dyadic, so the
    binary64 computation is exact and the rational one agrees with it. *)
Definition py_int (q : Q) : Z := Z.quot (Qnum q) (Z.pos (Qden q)).

(** Truthiness of an argument that is [None], [True] or [False]. *)
Definition truthy (b : option bool) : bool := default false b.

(** [str(x)] of a value that is a path or [None]. *)
Definition py_str (x : option string) : string := default "None" x.

(** [cv2.resize(image, (w, h))]: the content rescaled to [w] x [h]. *)
Definition cv2_resize (image : Frame) (dsize : Z * Z) : Frame :=
  mkFrame (fst dsize) (snd dsize) (content image) (channels image).

(** [st.radio(label, options)] and [st.selectbox(label, options)]: the
    option the user has selected; the widget starts on the first one. *)
Definition st_radio (options : list string) (selected : nat) : string :=
  default (hd "" options) (options !! selected).

Definition st_selectbox (options : list string) (selected : nat) : string :=
  default (hd "" options) (options !! selected).

(** What the user has done with the widgets of one script run. *)
Record Inputs := mkInputs {
  display_tracker_choice : nat;   (* radio "Display Tracker" *)
  tracker_choice : nat;           (* radio "Tracker" *)
  video_choice : nat;             (* selectbox "Choose a video..." *)
  text_input : string;            (* the sidebar text input *)
  button : bool                   (* the sidebar button *)
}.

(** What [cv2.VideoCapture(src)] does: it raises, or it hands back a
    capture that answers [isOpened()] and then delivers its reads, each
    a frame ([success] true) or a failure ([success] false); once the
    reads are used up every further read fails. *)
Inductive OpenResult :=
| OpenRaises (e : Exn)
| Capture (is_opened : bool) (stream : list (option Frame)).

(** A value of the dynamically typed stream attributes. *)
Inductive PyVal :=
| PyInt (z : Z)
| PyStr (s : string)
| PyNone.

#[global] Instance PyVal_eq_dec : EqDecision PyVal.
Proof. solve_decision. Defined.

(** One entry of [YouTube(url).streams]: its container format, its
    resolution (a text such as 720p, or [None] for an audio stream) and
    its direct URL. *)
Record Stream := mkStream {
  file_extension : PyVal;
  res : PyVal;
  url : string
}.

(** Truthiness of a keyword value. *)
Definition py_truthy (v : PyVal) : bool :=
  match v with
  | PyInt z => negb (z =? 0)
  | PyStr s => negb (String.eqb s "")
  | PyNone => false
  end.

(** One stream against [filter(file_extension=ext, res=r)] of
    pytubefix.  A falsy keyword adds no criterion.  [file_extension] is
    compared with the stream's.  [res] is compared with the stream's
    resolution only when it is a str; any other value, an int among
    them, adds no criterion. *)
Definition query_accepts (ext r : PyVal) (s : Stream) : bool :=
  (if py_truthy ext then bool_decide (file_extension s = ext) else true)
  && (if py_truthy r
      then match r with
           | PyStr _ => bool_decide (res s = r)
           | _ => true
           end
      else true).

(** [streams.filter(file_extension=ext, res=r)] *)
Definition streams_filter (ext r : PyVal) (streams : list Stream) : list Stream :=
  List.filter (query_accepts ext r) streams.

(** The collaborators outside the repository. *)
Record Env := mkEnv {
  ROOT : string;                               (* settings.ROOT *)
  VideoCapture : Source -> OpenResult;         (* cv2.VideoCapture *)
  YouTube : string -> Outcome (list Stream)    (* YouTube(url).streams *)
}.

(** ** settings.py *)

(** [pathlib]'s [a / b] followed by [str]. *)
Definition path_join (a b : string) : string :=
  if String.eqb a "." then b else a +:+ "/" +:+ b.

Definition VIDEO_DIR (env : Env) : string := path_join (ROOT env) "videos".

Definition VIDEOS_DICT (env : Env) : gmap string string :=
  {[ "Tower" := path_join (VIDEO_DIR env) "tower.mp4" ]}.

Definition WEBCAM_PATH : Z := 0.

(** ** helper.py *)

(** [display_tracker_options()] *)
Definition display_tracker_options (ui : Inputs) : bool * option string :=
  let display_tracker := st_radio ["Yes"; "No"] (display_tracker_choice ui) in
  let is_display_tracker := if String.eqb display_tracker "Yes" then true else false in
  if is_display_tracker then
    let tracker_type := st_radio ["bytetrack.yaml"; "botsort.yaml"] (tracker_choice ui) in
    (is_display_tracker, Some tracker_type)
  else (is_display_tracker, None).

Section Pipeline.
Context {S : Type}.

(** A call into the engine: logged, then answered or raised. *)
Definition call_model (model : Model S) (r : Request) : M S Frame :=
  fun w =>
    let '(out, s') := model (engine w) r in
    (out, mkWorld s' (opened w) (trace w ++ [EvInfer r])).

(** The request [_display_detected_frames] builds (lines 60-63). *)
Definition inference_request (conf : Q) (image : Frame)
    (is_display_tracking : option bool) (tracker : option string) : Request :=
  if truthy is_display_tracking
  then Track image conf true tracker
  else Predict image conf.

(** [_display_detected_frames(conf, model, st_frame, image,
    is_display_tracking, tracker)] *)
Definition _display_detected_frames (conf : Q) (model : Model S)
    (image : Frame) (is_display_tracking : option bool)
    (tracker : option string) : M S unit :=
  let image := cv2_resize image (720, py_int (720 * (9 # 16))) in
  detected_image ← call_model model
      (inference_request conf image is_display_tracking tracker);
  emit (EvImage detected_image "Detected Video Frame").

(** [cv2.VideoCapture(src)]: the handle is the sequence of reads the
    capture will deliver. *)
Definition cv2_VideoCapture (env : Env) (src : Source)
    : M S (list (option Frame)) :=
  emit (EvVideoCapture src);;
  match VideoCapture env src with
  | OpenRaises e => raise e
  | Capture o stream => set_opened o;; mret stream
  end.

(** [vid_cap.release()] *)
Definition release : M S unit := emit EvRelease;; set_opened false.

(** The loop every [play_*] function runs on its capture:
<<
    while vid_cap.isOpened():
        success, image = vid_cap.read()
        if success:
            _display_detected_frames(conf, model, st_frame, image,
                                     is_display_tracker, tracker)
        else:
            vid_cap.release()
            break
>>
    It recurses on the reads the capture still holds. *)
Fixpoint frame_loop (conf : Q) (model : Model S) (is_display_tracker : bool)
    (tracker : option string) (vid_cap : list (option Frame)) : M S unit :=
  o ← is_opened;
  if o : bool then
    emit EvRead;;
    match vid_cap with
    | Some image :: rest =>
        _display_detected_frames conf model image (Some is_display_tracker) tracker;;
        frame_loop conf model is_display_tracker tracker rest
    | _ => release
    end
  else mret tt.

(** [play_youtube_video(conf, model)] *)
Definition play_youtube_video (env : Env) (ui : Inputs) (conf : Q)
    (model : Model S) : M S unit :=
  let source_youtube := text_input ui in
  let '(is_display_tracker, tracker) := display_tracker_options ui in
  if button ui then
    try_except
      (yt ← (match YouTube env source_youtube with
             | Ret streams => mret streams
             | Raise e => raise e
             end);
       let stream := head (streams_filter (PyStr "mp4") (PyInt 720) yt) in
       stream_url ← (match stream with
                     | Some s => mret (url s)
                     | None => raise "'NoneType' object has no attribute 'url'"
                     end);
       vid_cap ← cv2_VideoCapture env (Url stream_url);
       frame_loop conf model is_display_tracker tracker vid_cap)
      (fun e => emit (EvError ("Error loading video: " +:+ e)))
  else mret tt.

(** [play_rtsp_stream(conf, model)] *)
Definition play_rtsp_stream (env : Env) (ui : Inputs) (conf : Q)
    (model : Model S) : M S unit :=
  let source_rtsp := text_input ui in
  let '(is_display_tracker, tracker) := display_tracker_options ui in
  if button ui then
    try_except
      (vid_cap ← cv2_VideoCapture env (Url source_rtsp);
       frame_loop conf model is_display_tracker tracker vid_cap)
      (fun e => emit (EvError ("Error loading RTSP stream: " +:+ e)))
  else mret tt.

(** [play_webcam(conf, model)] *)
Definition play_webcam (env : Env) (ui : Inputs) (conf : Q)
    (model : Model S) : M S unit :=
  let source_webcam := WEBCAM_PATH in
  let '(is_display_tracker, tracker) := display_tracker_options ui in
  if button ui then
    try_except
      (vid_cap ← cv2_VideoCapture env (Device source_webcam);
       frame_loop conf model is_display_tracker tracker vid_cap)
      (fun e => emit (EvError ("Error loading video: " +:+ e)))
  else mret tt.

(** [play_stored_video(conf, model)] *)
Definition play_stored_video (env : Env) (ui : Inputs) (conf : Q)
    (model : Model S) : M S unit :=
  let source_vid :=
    st_selectbox (map fst (map_to_list (VIDEOS_DICT env))) (video_choice ui) in
  let '(is_display_tracker, tracker) := display_tracker_options ui in
  if button ui then
    try_except
      (vid_cap ← cv2_VideoCapture env
                   (Url (py_str (VIDEOS_DICT env !! source_vid)));
       frame_loop conf model is_display_tracker tracker vid_cap)
      (fun e => emit (EvError ("Error loading video: " +:+ e)))
  else mret tt.

(** A run starts with no capture and an empty screen. *)
Definition initial (s : S) : World S := mkWorld s false [].
End Pipeline.

(** ** apps/upload2.py *)

(** [str.lower()] on the characters the extension test looks at: an
    upper-case ASCII letter becomes the lower-case one, every other
    character is kept.  (No character outside ASCII lower-cases into a
    letter of ".jpg", ".jpeg", ".png", ".bmp" or ".webp".) *)
Definition lower_ascii (c : ascii) : ascii :=
  let n := nat_of_ascii c in
  if (65 <=? n)%nat && (n <=? 90)%nat then ascii_of_nat (n + 32) else c.

Fixpoint py_lower (s : string) : string :=
  match s with
  | EmptyString => EmptyString
  | String c s' => String (lower_ascii c) (py_lower s')
  end.

(** [s[n:]] *)
Fixpoint py_slice_from (n : nat) (s : string) : string :=
  match n, s with
  | O, _ => s
  | Datatypes.S n', String _ s' => py_slice_from n' s'
  | Datatypes.S _, EmptyString => EmptyString
  end.

(** [s.endswith(suffix)]: the last [len(suffix)] characters of [s] are
    [suffix]. *)
Definition py_endswith (s suffix : string) : bool :=
  (String.length suffix <=? String.length s)%nat
  && String.eqb
       (py_slice_from (String.length s - String.length suffix) s)
       suffix.

(** [s.endswith((suf1, suf2, ...))] *)
Definition py_endswith_any (s : string) (suffixes : list string) : bool :=
  existsb (py_endswith s) suffixes.

Definition IMAGE_SUFFIXES : list string :=
  [".jpg"; ".jpeg"; ".png"; ".bmp"; ".webp"].

(** The test of line 63. *)
Definition is_image_name (file_name : string) : bool :=
  py_endswith_any (py_lower file_name) IMAGE_SUFFIXES.

(** [a[:, :, ::-1]]: the channel axis reversed. *)
Definition reverse_channels (img : Frame) : Frame :=
  mkFrame (width img) (height img) (content img)
          (match channels img with BGR => RGB | RGB => BGR end).

(** One member of the archive: its name and what reading it gives. *)
Record ZipInfo := mkZipInfo {
  filename : string;
  read : Outcome string
}.

(** [st.slider(label, min_value, max_value, value)] with integer
    arguments: the handle starts at [value], and wherever the user drags
    it, it stays on the track from [min_value] to [max_value]. *)
Definition st_slider (min_value max_value value : Z) (dragged_to : option Z) : Z :=
  match dragged_to with
  | None => value
  | Some v => Z.max min_value (Z.min max_value v)
  end.

(** The widgets of the page. *)
Record UploadInputs := mkUploadInputs {
  slider : option Z;       (* where the user has dragged the handle, if at all *)
  source_choice : nat;     (* radio "Select Source" *)
  (* st.sidebar.file_uploader: nothing, or an upload that
     zipfile.ZipFile either opens (its infolist) or rejects *)
  zip_file : option (Outcome (list ZipInfo))
}.

(** The collaborators of the page. *)
Record UploadEnv (S : Type) := mkUploadEnv {
  upload_root : string;                 (* settings.ROOT *)
  load_model : Outcome (Model S);       (* helper.load_model(DETECTION_MODEL) *)
  PIL_open : string -> Outcome Frame    (* PIL.Image.open(io.BytesIO(data)) *)
}.
Arguments upload_root {S} _.
Arguments load_model {S} _.
Arguments PIL_open {S} _.

Definition IMAGE : string := "Image".

Definition DETECTION_MODEL (root : string) : string :=
  path_join (path_join root "weights") "best (1).pt".

Section Upload.
Context {S : Type}.

(** A library call that answers or raises. *)
Definition lift {A} (o : Outcome A) : M S A :=
  match o with
  | Ret a => mret a
  | Raise e => raise e
  end.

(** The body of the [for file_info in zip_ref.infolist()] loop. *)
Fixpoint extract_members (infolist : list ZipInfo)
    (extracted_files : list (string * string)) : M S (list (string * string)) :=
  match infolist with
  | [] => mret extracted_files
  | file_info :: rest =>
      data ← lift (read file_info);
      extract_members rest (extracted_files ++ [(filename file_info, data)])
  end.

(** [extract_zip_in_memory(zip_file)] *)
Definition extract_zip_in_memory (zip_file : Outcome (list ZipInfo))
    : M S (list (string * string)) :=
  let extracted_files := [] in
  zip_ref ← lift zip_file;
  extract_members zip_ref extracted_files.

(** Lines 62-71: the detection loop over the extracted files. *)
Fixpoint detect_images (env : UploadEnv S) (detection_model : Model S)
    (confidence : Q) (extracted_files : list (string * string))
    (detected_images : list (string * Frame)) : M S (list (string * Frame)) :=
  match extracted_files with
  | [] => mret detected_images
  | (file_name, file_data) :: rest =>
      detected_images' ←
        (if is_image_name file_name then
           try_except
             (uploaded_image ← lift (PIL_open env file_data);
              res ← call_model detection_model (Predict uploaded_image confidence);
              let detected_image := reverse_channels res in
              mret (detected_images ++ [(file_name, detected_image)]))
             (fun ex =>
                emit (EvError ("Error processing image " +:+ file_name
                               +:+ ": " +:+ ex));;
                mret detected_images)
         else mret detected_images);
      detect_images env detection_model confidence rest detected_images'
  end.

(** Lines 74-95: the 3x3 collage. *)
Definition show_collage (detected_images : list (string * Frame)) : M S unit :=
  if bool_decide (detected_images ≠ []) then
    emit (EvWrite "Detected Images:");;
    let grid_size := 3%nat in
    let num_images := length detected_images in
    let rows := ((num_images + grid_size - 1) / grid_size)%nat in
    for_each (seq 0 rows) (fun i =>
      for_each (seq 0 grid_size) (fun j =>
        let index := (i * grid_size + j)%nat in
        if (index <? num_images)%nat then
          match detected_images !! index with
          | Some (file_name, detected_image) =>
              emit (EvImage detected_image ("Detected Image: " +:+ file_name))
          | None => raise "list index out of range"
          end
        else emit (EvWrite "")))
  else mret tt.

(** [app()].  The confidence [float(slider) / 100] is kept as the exact
    quotient; binary64 division rounds it monotonically and 25/100 and
    100/100 are binary64 values, so bounds proved on the quotient hold
    for the float as well.  The title, the headers and the single-option
    model selectbox have no effect on what follows and are left out. *)
Definition app (env : UploadEnv S) (ui : UploadInputs) : M S unit :=
  let confidence :=
    (inject_Z (st_slider 25 100 40 (slider ui)) / 100)%Q in
  match load_model env with
  | Raise ex =>
      emit (EvError ("Unable to load detection model. Check the specified path: "
                     +:+ DETECTION_MODEL (upload_root env)));;
      emit (EvError ex)
  | Ret detection_model =>
      let source_radio := st_radio [IMAGE] (source_choice ui) in
      if String.eqb source_radio IMAGE then
        match zip_file ui with
        | Some zip_file =>
            try_except
              (extracted_files ← extract_zip_in_memory zip_file;
               detected_images ← detect_images env detection_model confidence
                                   extracted_files [];
               show_collage detected_images)
              (fun ex =>
                 emit (EvError ("An error occurred while extracting ZIP file: "
                                +:+ ex)))
        | None => mret tt
        end
      else mret tt
  end.
End Upload.

(** ** streamlit_app.py *)

(** One entry of the [apps] list. *)
Record Page (S : Type) := mkPage {
  page_func : M S unit;
  page_title : string;
  page_icon : string
}.
Arguments mkPage {S} _ _ _.
Arguments page_func {S} _.
Arguments page_title {S} _.
Arguments page_icon {S} _.

(** The two pages; [upload2_app] is [upload2.app] and [upload_app] is
    the map page [upload.app], whose body lives in geopandas and
    leafmap and is taken as it comes. *)
Definition apps {S} (upload2_app upload_app : M S unit) : list (Page S) :=
  [ mkPage upload2_app "Fault Detection Model" "cloud-upload";
    mkPage upload_app "Folium Map" "cloud-upload" ].

(** Lines 32-35:
<<
    for app in apps:
        if app["title"] == selected:
            app["func"]()
            break
>> *)
Fixpoint run_selected {S} (apps : list (Page S)) (selected : string) : M S unit :=
  match apps with
  | [] => mret tt
  | app :: rest =>
      if String.eqb (page_title app) selected
      then page_func app
      else run_selected rest selected
  end.

(** The script: the menu in the sidebar, then the selected page. *)
Definition streamlit_app {S} (upload2_app upload_app : M S unit)
    (menu_choice : nat) : M S unit :=
  let apps := apps upload2_app upload_app in
  let titles := map page_title apps in
  let selected := st_selectbox titles menu_choice in
  run_selected apps selected.

(** ** apps/upload.py *)

(** The double quote. *)
Definition quote : ascii := "034"%char.

(** The literal head of the pattern of [extract_image_link]. *)
Definition IMG_SRC : string := "<img src=" +:+ String quote "".

(** [s[len(prefix):]] when [s.startswith(prefix)]. *)
Fixpoint strip_prefix (prefix s : string) : option string :=
  match prefix, s with
  | EmptyString, _ => Some s
  | String a prefix', String b s' =>
      if Ascii.eqb a b then strip_prefix prefix' s' else None
  | String _ _, EmptyString => None
  end.

(** The longest run of characters other than the quote at the head of
    [s], and what follows it: what the greedy class of the pattern
    takes. *)
Fixpoint span_unquoted (s : string) : string * string :=
  match s with
  | EmptyString => (EmptyString, EmptyString)
  | String c s' =>
      if Ascii.eqb c quote then (EmptyString, s)
      else let '(run, rest) := span_unquoted s' in (String c run, rest)
  end.

(** The pattern of line 32 anchored at the head of [s]: the literal, a
    non-empty run without quote (group 1), a quote.  The run is followed
    by a quote or by the end of the string, so giving characters back
    never helps the match. *)
Definition match_img_src (s : string) : option string :=
  match strip_prefix IMG_SRC s with
  | Some after =>
      match span_unquoted after with
      | (String c run, String _ _) => Some (String c run)
      | _ => None
      end
  | None => None
  end.

(** [re.search(pattern, s)]: the match at the leftmost position that
    has one; its group 1. *)
Fixpoint re_search_img_src (s : string) : option string :=
  match match_img_src s with
  | Some group1 => Some group1
  | None =>
      match s with
      | EmptyString => None
      | String _ s' => re_search_img_src s'
      end
  end.

(** [extract_image_link(description)] *)
Definition extract_image_link (description : string) : option string :=
  let image_match := re_search_img_src description in
  match image_match with
  | Some group1 => Some group1
  | None => None
  end.

(** [needle in haystack] on strings. *)
Fixpoint py_in (needle haystack : string) : bool :=
  match strip_prefix needle haystack with
  | Some _ => true
  | None =>
      match haystack with
      | EmptyString => false
      | String _ haystack' => py_in needle haystack'
      end
  end.

(** Lines 141-146 of [app], for one row of a layer whose fields are
    strings: the popup of the marker ... *)
Definition popup_content (description image_link name : string) : string :=
  let popup_content := "" in
  let popup_content :=
    if negb (String.eqb image_link "")
    then popup_content +:+ "<img src=" +:+ String quote image_link
         +:+ String quote (" width=" +:+ String quote ("300"
         +:+ String quote (" height=" +:+ String quote ("auto"
         +:+ String quote "/><br>"))))
    else popup_content in
  popup_content +:+ description +:+ "<br><strong>" +:+ name +:+ "</strong>".

(** What [row.get(column, "")] gives for one row: the text of the
    cell, or the missing value of an empty cell (NaN, or [None]). *)
Inductive Cell :=
| CellText (s : string)
| CellNaN
| CellNone.

(** ... and, line 148, its colour.  [in] needs a text to search in: on
    a missing value it raises TypeError. *)
Definition icon_color (description : Cell) : Outcome string :=
  match description with
  | CellText s => Ret (if py_in "Rotten" s then "red" else "blue")
  | CellNaN => Raise "argument of type 'float' is not iterable"
  | CellNone => Raise "argument of type 'NoneType' is not iterable"
  end.

(** What [display_fault_detection] needs from outside. *)
Record PanelEnv (S : Type) := mkPanelEnv {
  panel_root : string;                     (* settings.ROOT *)
  image_open : string -> Outcome Frame;    (* Image.open(path) *)
  panel_load_model : Outcome (Model S);    (* helper.load_model(DETECTION_MODEL) *)
  str_float : Q -> string                  (* how the f-string prints a float *)
}.
Arguments panel_root {S} _.
Arguments image_open {S} _.
Arguments panel_load_model {S} _.
Arguments str_float {S} _.

Definition FAULT_IMAGE_PATH : string :=
  "Lundu-Sematan H7L5 (3)/Lundu-Sematan H7L5/rotten/image (37).png".

(** [display_fault_detection(conf_threshold)].  The engine is handed
    the path; in the trace the request carries the image stored there,
    the one [Image.open] has just read.  The sidebar header is left
    out. *)
Definition display_fault_detection {S} (env : PanelEnv S) (conf_threshold : Q)
    : M S unit :=
  let image_path := FAULT_IMAGE_PATH in
  match image_open env image_path with
  | Raise e => emit (EvError ("Failed to load image: " +:+ e))
  | Ret original_image =>
      emit (EvImage original_image "Original Image");;
      match panel_load_model env with
      | Raise ex =>
          emit (EvError ("Unable to load detection model. Check the specified path: "
                         +:+ DETECTION_MODEL (panel_root env)));;
          emit (EvError ex)
      | Ret detection_model =>
          try_except
            (res ← call_model detection_model (Predict original_image conf_threshold);
             let detected_image := reverse_channels res in
             emit (EvImage detected_image "Detected Image");;
             emit (EvWrite ("Confidence Threshold: " +:+ str_float env conf_threshold)))
            (fun ex => emit (EvError ("Error processing image: " +:+ ex)))
      end
  end.

(** * Vocabulary of the properties *)

(** The frame and the confidence a request carries. *)
Definition request_image (r : Request) : Frame :=
  match r with Track image _ _ _ | Predict image _ => image end.

Definition request_conf (r : Request) : Q :=
  match r with Track _ conf _ _ | Predict _ conf => conf end.

(** The size every frame is brought to before inference. *)
Definition resized (image : Frame) : Frame :=
  cv2_resize image (720, py_int (720 * (9 # 16))).

(** Rounding to the nearest integer, ties to even: the [round] the
    specification speaks of. *)
Definition spec_round (q : Q) : Z :=
  let f := Qfloor q in
  match (q - inject_Z f ?= 1 # 2)%Q with
  | Lt => f
  | Gt => f + 1
  | Eq => if Z.even f then f else f + 1
  end.

(** The leading successful reads of a capture: its readable frames. *)
Fixpoint readable (vid_cap : list (option Frame)) : list Frame :=
  match vid_cap with
  | Some image :: rest => image :: readable rest
  | _ => []
  end.

(** The engine on its own: the answers to a sequence of requests up to
    the first one it fails on, the failure if there is one, and the
    state it is left in. *)
Fixpoint serve {S} (model : Model S) (s : S) (reqs : list Request)
    : list Frame * option Exn * S :=
  match reqs with
  | [] => ([], None, s)
  | r :: rest =>
      match model s r with
      | (Ret f, s') =>
          let '(fs, e, s'') := serve model s' rest in (f :: fs, e, s'')
      | (Raise e, s') => ([], Some e, s')
      end
  end.

(** 1 when the engine failed, 0 when it did not. *)
Definition faults (e : option Exn) : nat :=
  match e with Some _ => 1%nat | None => 0%nat end.

(** The [try] block the four functions share once the source is known:
    open the capture, run the loop, report any exception under the
    function's own prefix. *)
Definition guarded {S} (prefix : string) (env : Env) (src : Source) (conf : Q)
    (model : Model S) (trk : bool) (tracker : option string) : M S unit :=
  try_except
    (vid_cap ← cv2_VideoCapture env src;
     frame_loop conf model trk tracker vid_cap)
    (fun e => emit (EvError (prefix +:+ e))).

(** The source [play_stored_video] opens. *)
Definition stored_video_source (env : Env) (ui : Inputs) : Source :=
  Url (py_str (VIDEOS_DICT env !!
         st_selectbox (map fst (map_to_list (VIDEOS_DICT env))) (video_choice ui))).

(** The streams the query of [play_youtube_video] accepts. *)
Definition compatible (s : Stream) : bool :=
  query_accepts (PyStr "mp4") (PyInt 720) s.

(** ** Concrete runs *)

Module Scenario.
(** A full-HD frame whose content is numbered [n]. *)
Definition frame (n : nat) : Frame := mkFrame 1920 1080 n BGR.

(** A stored video of [n] frames, numbered from 1. *)
Definition video (n : nat) : list (option Frame) :=
  map (λ i, Some (frame i)) (seq 1 n).

(** An installation where every capture behaves as [r]. *)
Definition env_of (r : OpenResult) : Env := mkEnv "." (λ _, r) (λ _, Ret []).

(** A stateless engine that hands the frame back as its annotation. *)
Definition engine_ok : Model unit :=
  λ s r, (Ret (request_image r), s).

(** The same engine with an internal fault on the frame numbered [k]. *)
Definition engine_faulting_on (k : nat) : Model unit :=
  λ s r, if Nat.eqb (content (request_image r)) k
         then (Raise "engine fault", s)
         else (Ret (request_image r), s).

(** Button pressed, tracking on with the first tracker ... *)
Definition tracking_on : Inputs := mkInputs 0 0 0 "" true.
(** ... and with "Display Tracker" set to "No". *)
Definition tracking_off : Inputs := mkInputs 1 0 0 "" true.
End Scenario.

(** The size the specification asks for. *)
Definition standard_size (r : Request) : Prop :=
  width (request_image r) = 720 ∧ height (request_image r) = 405.

(** The requests a stored-video run would make for all the readable
    frames of its capture. *)
Definition planned_requests (ui : Inputs) (conf : Q)
    (vid_cap : list (option Frame)) : list Request :=
  map (λ f, inference_request conf (resized f)
              (Some (display_tracker_options ui).1)
              (display_tracker_options ui).2)
      (readable vid_cap).

(** What that comes to: an mp4 stream, of any resolution. *)
Definition Compatible (st : Stream) : Prop :=
  file_extension st = PyStr "mp4".

(** The images put on the page, with their captions. *)
Definition displayed (t : list Event) : list (Frame * string) :=
  omap (fun ev => match ev with EvImage f c => Some (f, c) | _ => None end) t.

(** The page as the code fills it from the extracted files. *)
Definition submitted {S} (env : UploadEnv S) (files : list (string * string))
    : list (string * Frame) :=
  omap (λ p, if is_image_name p.1
             then match PIL_open env p.2 with
                  | Ret img => Some (p.1, img)
                  | Raise _ => None
                  end
             else None) files.

(** The engine on its own, carrying on after a failure. *)
Fixpoint answer_all {S} (model : Model S) (s : S) (reqs : list Request)
    : list (Outcome Frame) :=
  match reqs with
  | [] => []
  | r :: rest => (model s r).1 :: answer_all model (model s r).2 rest
  end.

(** The named images the engine answered, as they are kept for display. *)
Definition kept (named : list (string * Frame)) (answers : list (Outcome Frame))
    : list (string * Frame) :=
  omap (λ na, match na.2 with
              | Ret f => Some (na.1.1, reverse_channels f)
              | Raise _ => None
              end) (zip named answers).

(** An image kept for display, as it appears on the page. *)
Definition caption_of (p : string * Frame) : Frame * string :=
  (p.2, "Detected Image: " +:+ p.1).

(** A computation that returns, leaving the engine and the capture as
    they were and adding [t] to the trace. *)
Definition steps {S} (m : M S unit) (w : World S) (t : list Event) : Prop :=
  m w = (Ret tt, mkWorld (engine w) (opened w) (trace w ++ t)).

(** What one cell of the collage puts on the page. *)
Definition cell_events (detected_images : list (string * Frame)) (index : nat)
    : list Event :=
  match detected_images !! index with
  | Some p => [EvImage p.2 ("Detected Image: " +:+ p.1)]
  | None => [EvWrite ""]
  end.

(** The requests the page makes for the extracted files. *)
Definition batch_requests {S} (env : UploadEnv S) (confidence : Q)
    (files : list (string * string))
    : list Request :=
  map (λ p, Predict p.2 confidence) (submitted env files).

(** An archive all of whose members can be read. *)
Definition member (p : string * string) : ZipInfo := mkZipInfo p.1 (Ret p.2).

(** The confidence the page computes from the slider. *)
Definition page_confidence (ui : UploadInputs) : Q :=
  (inject_Z (st_slider 25 100 40 (slider ui)) / 100)%Q.

(** ** A concrete archive *)

Module Batch.
(** Decoding fails on the member whose bytes are "corrupt"; any other
    member decodes to an image numbered by its size. *)
Definition decode (data : string) : Outcome Frame :=
  if String.eqb data "corrupt"
  then Raise "cannot identify image file"
  else Ret (mkFrame 640 480 (String.length data) RGB).

Definition env : UploadEnv unit :=
  mkUploadEnv unit "." (Ret Scenario.engine_ok) decode.

Definition files : list (string * string) :=
  [("tower/A.JPG", "x"); ("notes.txt", "xx"); ("b.png", "corrupt");
   ("c.WebP", "xxxx")].

(** The slider at its default, the archive uploaded. *)
Definition ui : UploadInputs := mkUploadInputs None 0 (Some (Ret (map member files))).

(** The slider at its lowest position. *)
Definition ui_low : UploadInputs :=
  mkUploadInputs (Some 25) 0 (Some (Ret (map member files))).
End Batch.

(** ** Vocabulary of the further properties *)

(** What a run of a [play_*] function keeps to on a capture that
    delivers finitely many frames: it returns; it opens at most one
    capture and releases at most once; it reports at most one error,
    and never both releases and reports; every image has its request,
    and at most one request is left without image. *)
Definition orderly {S} (run : Outcome unit * World S) : Prop :=
  run.1 = Ret tt ∧
  (length (captures (trace run.2)) ≤ 1)%nat ∧
  (releases (trace run.2) + length (errors (trace run.2)) ≤ 1)%nat ∧
  (length (emitted (trace run.2)) ≤ length (requests (trace run.2)))%nat ∧
  (length (requests (trace run.2)) ≤ Datatypes.S (length (emitted (trace run.2))))%nat ∧
  (releases (trace run.2) = 1%nat →
     opened run.2 = false ∧
     length (requests (trace run.2)) = length (emitted (trace run.2))).

(** Concrete live sources. *)
Module Live.
(** Three frames, a failed read, and two frames that are never reached. *)
Definition interrupted : list (option Frame) :=
  Scenario.video 3 ++ [None] ++ Scenario.video 2.

(** The sidebar with an RTSP URL typed in, tracking off. *)
Definition rtsp_ui : Inputs := mkInputs 1 0 0 "rtsp://camera.example/stream" true.

(** The sidebar with a YouTube URL typed in, tracking on. *)
Definition youtube_ui : Inputs :=
  mkInputs 0 1 0 "https://youtube.example/watch?v=tower" true.

Definition audio : Stream := mkStream (PyStr "webm") PyNone "https://cdn.example/a".
Definition hd : Stream := mkStream (PyStr "mp4") (PyStr "720p") "https://cdn.example/hd".
Definition low : Stream := mkStream (PyStr "mp4") (PyStr "360p") "https://cdn.example/low".

(** An installation whose video lookup gives [audio] then [hd] and
    whose captures behave as [r]. *)
Definition youtube_env (r : OpenResult) : Env :=
  mkEnv "." (λ _, r) (λ _, Ret [audio; hd]).

(** An installation whose video lookup raises. *)
Definition offline_env : Env :=
  mkEnv "." (λ _, Capture true []) (λ _, Raise "video unavailable").
End Live.

(** The event of one displayed image, and the blank cell. *)
Definition image_event (p : string * Frame) : Event :=
  EvImage p.2 ("Detected Image: " +:+ p.1).

Definition blank_cell : Event := EvWrite "".

(** The last character of a string, if it has one. *)
Fixpoint string_last (s : string) : option ascii :=
  match s with
  | EmptyString => None
  | String c EmptyString => Some c
  | String _ s' => string_last s'
  end.

(** A string without any double quote. *)
Fixpoint unquoted (s : string) : bool :=
  match s with
  | EmptyString => true
  | String c s' => negb (Ascii.eqb c quote) && unquoted s'
  end.

(** The captions of the images on the page, in order. *)
Definition captions (t : list Event) : list string := map snd (displayed t).

(** A page to stand for the map page in concrete runs of the menu: it
    writes its title. *)
Definition map_page {S} : M S unit := emit (EvWrite "Upload Vector Data").

(** Concrete archives. *)
Module Archive.
(** An archive whose third member cannot be read. *)
Definition damaged : list ZipInfo :=
  map member [("a.jpg", "x"); ("b.png", "xx")]
  ++ mkZipInfo "c.jpg" (Raise "Bad CRC-32 for file 'c.jpg'") :: [].

Definition damaged_ui : UploadInputs := mkUploadInputs None 0 (Some (Ret damaged)).

(** An archive of documents. *)
Definition documents : list (string * string) :=
  [("readme.txt", "x"); ("scans/", ""); ("report.pdf", "xxx"); ("photo.jpg.bak", "xx")].

Definition documents_ui : UploadInputs :=
  mkUploadInputs None 0 (Some (Ret (map member documents))).

(** The installation of [Batch.env] with an engine that fails on every
    image. *)
Definition failing_env : UploadEnv unit :=
  mkUploadEnv unit "." (Ret (Scenario.engine_faulting_on 1)) Batch.decode.
End Archive.

(** The frame of the standard size with the content of [image]. *)
Definition standard (image : Frame) : Frame :=
  mkFrame 720 405 (content image) (channels image).

(** A run that feeds the engine the frames of [vid_cap]: the images of
    its requests are, in order, the standard-size versions of the first
    frames read; every request ends in an image or in the diagnostic of
    the run; and unless there is a diagnostic every readable frame has
    been sent. *)
Definition feeds_standard {S} (run : Outcome unit * World S)
    (vid_cap : list (option Frame)) : Prop :=
  let sent := map request_image (requests (trace run.2)) in
  sent = map standard (take (length sent) (readable vid_cap)) ∧
  length sent = (length (emitted (trace run.2))
                 + length (errors (trace run.2)))%nat ∧
  (errors (trace run.2) = [] → length sent = length (readable vid_cap)).

(** Sources of several resolutions. *)
Module Mixed.
(** Three frames: full HD, VGA and 4K. *)
Definition video : list (option Frame) :=
  [Some (mkFrame 1920 1080 1 BGR); Some (mkFrame 640 480 2 BGR);
   Some (mkFrame 3840 2160 3 BGR)].

(** A video offered as audio, as mp4 at 360p and as mp4 at 720p, in
    that order, every capture behaving as [r]. *)
Definition youtube_env (r : OpenResult) : Env :=
  mkEnv "." (λ _, r) (λ _, Ret [Live.audio; Live.low; Live.hd]).

(** A video offered at 360p only. *)
Definition low_only_env (r : OpenResult) : Env :=
  mkEnv "." (λ _, r) (λ _, Ret [Live.audio; Live.low]).
End Mixed.

(** * Properties *)

(** ** Reading traces *)

Lemma emitted_app t1 t2 : emitted (t1 ++ t2) = emitted t1 ++ emitted t2.
Proof. apply omap_app. Qed.

Lemma requests_app t1 t2 : requests (t1 ++ t2) = requests t1 ++ requests t2.
Proof. apply omap_app. Qed.

Lemma errors_app t1 t2 : errors (t1 ++ t2) = errors t1 ++ errors t2.
Proof. apply omap_app. Qed.

Lemma captures_app t1 t2 : captures (t1 ++ t2) = captures t1 ++ captures t2.
Proof. apply omap_app. Qed.

Lemma releases_app t1 t2 : releases (t1 ++ t2) = (releases t1 + releases t2)%nat.
Proof. unfold releases. by rewrite List.filter_app, length_app. Qed.

Lemma reads_app t1 t2 : reads (t1 ++ t2) = (reads t1 + reads t2)%nat.
Proof. unfold reads. by rewrite List.filter_app, length_app. Qed.

Lemma serve_length {S} (model : Model S) s reqs :
  (length (serve model s reqs).1.1 ≤ length reqs)%nat.
Proof.
  revert s. induction reqs as [|r rest IH]; intros s; simpl; [lia|].
  destruct (model s r) as [[f|e] s']; simpl; [|lia].
  specialize (IH s'). destruct (serve model s' rest) as [[fs e'] s'']. simpl in *. lia.
Qed.

(** An engine that answers every request serves all of them. *)
Lemma serve_total {S} (model : Model S) s reqs :
  (∀ s r, ∃ f s', model s r = (Ret f, s')) →
  (serve model s reqs).1.2 = None ∧
  length (serve model s reqs).1.1 = length reqs.
Proof.
  intros Hok. revert s. induction reqs as [|r rest IH]; intros s; simpl; [done|].
  destruct (Hok s r) as (f & s' & ->).
  specialize (IH s'). destruct (serve model s' rest) as [[fs e'] s'']. simpl in *.
  destruct IH as [-> ->]. done.
Qed.

Ltac run_step :=
  cbv beta iota zeta delta
    [_display_detected_frames release lift call_model cv2_VideoCapture
     mbind mret M_bind M_ret bind ret emit set_opened is_opened raise
     try_except]; simpl.

Section FrameLoop.
Context {S : Type}.
Implicit Types (model : Model S) (w : World S).

(** One pass of [_display_detected_frames]: one request, built from the
    resized frame, then one image if the engine answers. *)
Lemma display_detected_frames_run conf model image trk tracker w :
  _display_detected_frames conf model image trk tracker w =
    let r := inference_request conf (resized image) trk tracker in
    match model (engine w) r with
    | (Ret f, s') =>
        (Ret tt, mkWorld s' (opened w)
                   ((trace w ++ [EvInfer r]) ++ [EvImage f "Detected Video Frame"]))
    | (Raise e, s') =>
        (Raise e, mkWorld s' (opened w) (trace w ++ [EvInfer r]))
    end.
Proof.
  run_step. unfold resized.
  destruct (model _ _) as [[f|e] s']; reflexivity.
Qed.

(** What the loop does on an opened capture, in terms of the engine's
    answers to the requests for the readable frames. *)
Lemma frame_loop_run conf model trk tracker vid_cap w :
  opened w = true →
  let reqs := map (λ f, inference_request conf (resized f) (Some trk) tracker)
                  (readable vid_cap) in
  let '(fs, e, s') := serve model (engine w) reqs in
  ∃ t,
    frame_loop conf model trk tracker vid_cap w =
      (match e with None => Ret tt | Some x => Raise x end,
       mkWorld s' (bool_decide (e ≠ None)) (trace w ++ t)) ∧
    emitted t = fs ∧
    requests t = take (length fs + faults e) reqs ∧
    errors t = [] ∧ captures t = [] ∧
    reads t = (length fs + 1)%nat ∧
    releases t = (1 - faults e)%nat.
Proof.
  revert w. induction vid_cap as [|[image|] rest IH]; intros [s o t0] Ho;
    simpl in Ho; subst o; simpl.
  - exists [EvRead; EvRelease]. run_step. rewrite <- app_assoc. done.
  - set (r := inference_request conf (resized image) (Some trk) tracker).
    unfold mbind, M_bind, bind at 1. unfold is_opened at 1. simpl.
    unfold bind at 1. unfold emit at 1. simpl.
    unfold bind at 1. rewrite display_detected_frames_run. simpl. fold r.
    destruct (model s r) as [[f|e] s1] eqn:Hm; simpl.
    + specialize (IH (mkWorld s1 true
        (((t0 ++ [EvRead]) ++ [EvInfer r]) ++ [EvImage f "Detected Video Frame"]))
        eq_refl).
      simpl in IH.
      destruct (serve model s1 _) as [[fs e'] s2].
      destruct IH as (t & Hrun & Hem & Hrq & Her & Hcap & Hrd & Hrl).
      exists ([EvRead; EvInfer r; EvImage f "Detected Video Frame"] ++ t).
      rewrite Hrun. split.
      { f_equal. f_equal. rewrite <- !app_assoc. done. }
      rewrite emitted_app, requests_app, errors_app, captures_app, reads_app,
        releases_app.
      rewrite Hem, Hrq, Her, Hcap, Hrd, Hrl. simpl. done.
    + exists [EvRead; EvInfer r].
      split; [by rewrite <- app_assoc|]. done.
  - exists [EvRead; EvRelease]. run_step. rewrite <- app_assoc. done.
Qed.

(** On a capture that is not opened the loop body never runs. *)
Lemma frame_loop_closed conf model trk tracker vid_cap w :
  opened w = false →
  frame_loop conf model trk tracker vid_cap w = (Ret tt, w).
Proof. intros Ho. destruct vid_cap; simpl; run_step; by rewrite Ho. Qed.
End FrameLoop.

(** ** The four [play_*] functions as one guarded run *)

Section Guarded.
Context {S : Type}.
Implicit Types (model : Model S) (w : World S).

Lemma play_stored_video_unfold env ui conf model :
  play_stored_video env ui conf model =
    if button ui
    then guarded "Error loading video: " env (stored_video_source env ui) conf
           model (display_tracker_options ui).1 (display_tracker_options ui).2
    else mret tt.
Proof.
  unfold play_stored_video. by destruct (display_tracker_options ui).
Qed.

Lemma play_rtsp_stream_unfold env ui conf model :
  play_rtsp_stream env ui conf model =
    if button ui
    then guarded "Error loading RTSP stream: " env (Url (text_input ui)) conf
           model (display_tracker_options ui).1 (display_tracker_options ui).2
    else mret tt.
Proof.
  unfold play_rtsp_stream. by destruct (display_tracker_options ui).
Qed.

Lemma play_webcam_unfold env ui conf model :
  play_webcam env ui conf model =
    if button ui
    then guarded "Error loading video: " env (Device WEBCAM_PATH) conf
           model (display_tracker_options ui).1 (display_tracker_options ui).2
    else mret tt.
Proof.
  unfold play_webcam. by destruct (display_tracker_options ui).
Qed.

Lemma play_youtube_video_unfold env ui conf model w :
  play_youtube_video env ui conf model w =
    if button ui then
      match YouTube env (text_input ui) with
      | Raise e => emit (EvError ("Error loading video: " +:+ e)) w
      | Ret streams =>
          match head (List.filter compatible streams) with
          | None =>
              emit (EvError ("Error loading video: "
                             +:+ "'NoneType' object has no attribute 'url'")) w
          | Some s =>
              guarded "Error loading video: " env (Url (url s)) conf model
                (display_tracker_options ui).1 (display_tracker_options ui).2 w
          end
      end
    else (Ret tt, w).
Proof.
  unfold play_youtube_video. destruct (display_tracker_options ui) as [b t].
  destruct (button ui); [|done].
  destruct (YouTube env (text_input ui)) as [streams|e]; [|done].
  unfold streams_filter, guarded.
  cbv beta iota zeta delta [try_except mbind M_bind bind mret M_ret ret raise].
  change (List.filter (query_accepts (PyStr "mp4") (PyInt 720)) streams)
    with (List.filter compatible streams).
  destruct (head (List.filter compatible streams)); done.
Qed.

(** The guarded run on a capture that opens. *)
Lemma guarded_opened prefix env src conf model trk tracker vid_cap w :
  VideoCapture env src = Capture true vid_cap →
  let reqs := map (λ f, inference_request conf (resized f) (Some trk) tracker)
                  (readable vid_cap) in
  let '(fs, e, s') := serve model (engine w) reqs in
  ∃ t,
    guarded prefix env src conf model trk tracker w =
      (Ret tt,
       mkWorld s' (bool_decide (e ≠ None))
         (trace w ++ [EvVideoCapture src] ++ t
          ++ match e with Some x => [EvError (prefix +:+ x)] | None => [] end)) ∧
    emitted t = fs ∧
    requests t = take (length fs + faults e) reqs ∧
    errors t = [] ∧ captures t = [] ∧
    reads t = (length fs + 1)%nat ∧
    releases t = (1 - faults e)%nat.
Proof.
  intros Hcap. simpl.
  pose proof (frame_loop_run conf model trk tracker vid_cap
    (mkWorld (engine w) true (trace w ++ [EvVideoCapture src])) eq_refl) as H.
  simpl in H. destruct (serve model (engine w) _) as [[fs e] s'].
  destruct H as (t & Hrun & H). exists t. split; [|exact H].
  unfold guarded. run_step. rewrite Hcap. simpl.
  change (frame_loop conf model trk tracker vid_cap
            {| engine := engine w; opened := true;
               trace := trace w ++ [EvVideoCapture src] |})
    with (frame_loop conf model trk tracker vid_cap
            (mkWorld (engine w) true (trace w ++ [EvVideoCapture src]))).
  rewrite Hrun. destruct e as [x|]; simpl.
  - f_equal. f_equal. by rewrite <- !app_assoc.
  - f_equal. f_equal. by rewrite app_nil_r, <- app_assoc.
Qed.

(** The guarded run on a capture that comes back unopened: nothing
    after the attempt to open. *)
Lemma guarded_unopened prefix env src conf model trk tracker vid_cap w :
  VideoCapture env src = Capture false vid_cap →
  guarded prefix env src conf model trk tracker w =
    (Ret tt, mkWorld (engine w) false (trace w ++ [EvVideoCapture src])).
Proof.
  intros Hcap. unfold guarded. run_step. rewrite Hcap. simpl.
  change (frame_loop conf model trk tracker vid_cap
            {| engine := engine w; opened := false;
               trace := trace w ++ [EvVideoCapture src] |})
    with (frame_loop conf model trk tracker vid_cap
            (mkWorld (engine w) false (trace w ++ [EvVideoCapture src]))).
  by rewrite frame_loop_closed.
Qed.

(** The guarded run when opening raises. *)
Lemma guarded_raises prefix env src conf model trk tracker x w :
  VideoCapture env src = OpenRaises x →
  guarded prefix env src conf model trk tracker w =
    (Ret tt, mkWorld (engine w) (opened w)
               ((trace w ++ [EvVideoCapture src]) ++ [EvError (prefix +:+ x)])).
Proof. intros Hcap. unfold guarded. run_step. by rewrite Hcap. Qed.

(** Whatever the capture does, every request of a guarded run carries a
    frame of the standard size, and the run returns. *)
Lemma guarded_requests prefix env src conf model trk tracker w :
  ∃ t, (guarded prefix env src conf model trk tracker w).1 = Ret tt ∧
       trace (guarded prefix env src conf model trk tracker w).2 = trace w ++ t ∧
       Forall (λ r, ∃ image, r = inference_request conf (resized image) (Some trk) tracker)
              (requests t).
Proof.
  destruct (VideoCapture env src) as [x|[] vid_cap] eqn:Hcap.
  - rewrite (guarded_raises _ _ _ _ _ _ _ x) by done. simpl.
    eexists. split; [done|]. split; [by rewrite <- app_assoc|]. simpl. constructor.
  - pose proof (guarded_opened prefix env src conf model trk tracker vid_cap w Hcap) as H.
    simpl in H. destruct (serve model (engine w) _) as [[fs e] s'].
    destruct H as (t & -> & _ & Hrq & _). simpl.
    eexists. split; [done|]. split; [done|].
    change (requests (EvVideoCapture src :: ?x)) with (requests x).
    rewrite requests_app, Hrq.
    replace (requests match e with Some x => [EvError (prefix +:+ x)] | None => [] end)
      with (@nil Request) by (by destruct e).
    rewrite app_nil_r. apply Forall_take, Forall_map, Forall_forall.
    intros f _. by exists f.
  - rewrite (guarded_unopened _ _ _ _ _ _ _ vid_cap) by done. simpl.
    eexists. split; [done|]. split; [done|]. simpl. constructor.
Qed.
End Guarded.

(** ** Small checks of the primitives *)

Example py_int_of_height : py_int (720 * (9 # 16)) = 405.
Proof. reflexivity. Qed.

Example py_int_truncates : py_int (-7 # 2) = -3 ∧ py_int (7 # 2) = 3.
Proof. split; reflexivity. Qed.

Example spec_round_ties_to_even :
  spec_round (5 # 2) = 2 ∧ spec_round (7 # 2) = 4 ∧ spec_round (405 # 1) = 405.
Proof. repeat split; reflexivity. Qed.

Example is_image_name_examples :
  is_image_name "tower/A.JPG" = true ∧ is_image_name "c.WebP" = true ∧
  is_image_name ".png" = true ∧ is_image_name "notes.txt" = false ∧
  is_image_name "a.jpg.bak" = false ∧ is_image_name "jpg" = false.
Proof. repeat split; reflexivity. Qed.

Example st_radio_examples :
  st_radio ["Yes"; "No"] 0 = "Yes" ∧ st_radio ["Yes"; "No"] 1 = "No".
Proof. split; reflexivity. Qed.

Example stored_video_source_example :
  stored_video_source (Scenario.env_of (Capture true [])) Scenario.tracking_on
  = Url "videos/tower.mp4".
Proof. reflexivity. Qed.

(** ** The tracker options (C8) *)

(** C8: [display_tracker_options] returns the pair (enabled, tracker):
    when tracking is enabled the tracker is one of the two identifiers
    "bytetrack.yaml" and "botsort.yaml"; when it is disabled the tracker
    is [None].  No other pair is ever returned. *)
Theorem display_tracker_options_variants (ui : Inputs) :
  display_tracker_options ui = (true, Some "bytetrack.yaml") ∨
  display_tracker_options ui = (true, Some "botsort.yaml") ∨
  display_tracker_options ui = (false, None).
Proof.
  unfold display_tracker_options, st_radio.
  destruct ui as [[|[|d]] [|[|t]] v x b]; simpl; auto.
Qed.

(** ** The inference request (C6, C3) *)

Lemma inference_request_standard_size conf image trk tracker :
  standard_size (inference_request conf (resized image) trk tracker).
Proof. unfold inference_request. by destruct (truthy trk). Qed.

Lemma inference_request_conf conf image trk tracker :
  request_conf (inference_request conf image trk tracker) = conf.
Proof. unfold inference_request. by destruct (truthy trk). Qed.

Section Claims.
Context {S : Type}.
Implicit Types (model : Model S) (w : World S) (s : S).

(** C6: for every frame, [_display_detected_frames] sends exactly one
    request; it is a track request carrying the configured tracker and
    [persist=True] exactly when tracking is enabled and a predict
    request otherwise, and either way it carries the configured
    confidence unchanged.  In a stored-video run the flag and the
    tracker are those of the tracker options. *)
Theorem inference_request_follows_tracking_flag
    conf model image trk tracker w env ui s :
  requests (trace (_display_detected_frames conf model image trk tracker w).2) =
    requests (trace w) ++
      [if truthy trk then Track (resized image) conf true tracker
       else Predict (resized image) conf] ∧
  Forall (λ r, ∃ image,
            r = if (display_tracker_options ui).1
                then Track (resized image) conf true (display_tracker_options ui).2
                else Predict (resized image) conf)
    (requests (trace (play_stored_video env ui conf model (initial s)).2)).
Proof.
  split.
  - rewrite display_detected_frames_run. simpl.
    destruct (model (engine w) _) as [[f|e] s']; simpl;
      rewrite ?requests_app; simpl; by rewrite ?app_nil_r.
  - rewrite play_stored_video_unfold. destruct (button ui); [|constructor].
    destruct (guarded_requests "Error loading video: " env
      (stored_video_source env ui) conf model (display_tracker_options ui).1
      (display_tracker_options ui).2 (initial s)) as (t & _ & -> & H).
    simpl. exact H.
Qed.

Lemma guarded_standard_size prefix env src conf model trk tracker s :
  Forall standard_size
    (requests (trace (guarded prefix env src conf model trk tracker (initial s)).2)).
Proof.
  destruct (guarded_requests prefix env src conf model trk tracker (initial s))
    as (t & _ & -> & H).
  simpl. eapply Forall_impl; [exact H|].
  intros r [image ->]. apply inference_request_standard_size.
Qed.

(** No run of any source kind makes a request of another size, also
    when nothing is opened or read. *)
Lemma play_requests_standard_size env ui conf model s :
  spec_round (720 * (9 # 16)) = 405 ∧
  Forall standard_size
    (requests (trace (play_stored_video env ui conf model (initial s)).2)) ∧
  Forall standard_size
    (requests (trace (play_webcam env ui conf model (initial s)).2)) ∧
  Forall standard_size
    (requests (trace (play_rtsp_stream env ui conf model (initial s)).2)) ∧
  Forall standard_size
    (requests (trace (play_youtube_video env ui conf model (initial s)).2)).
Proof.
  split; [reflexivity|].
  rewrite play_stored_video_unfold, play_webcam_unfold, play_rtsp_stream_unfold,
    play_youtube_video_unfold.
  destruct (button ui); [|by repeat split; constructor].
  repeat split; try apply guarded_standard_size.
  destruct (YouTube env (text_input ui)) as [streams|e]; [|by constructor].
  destruct (head (List.filter compatible streams));
    [apply guarded_standard_size | by constructor].
Qed.
End Claims.

(** ** Stored video: exhaustion and engine faults (C5, C1, C2) *)

Section StoredVideo.
Context {S : Type}.
Implicit Types (model : Model S) (s : S).

Lemma play_stored_video_run env ui conf model s vid_cap :
  button ui = true →
  VideoCapture env (stored_video_source env ui) = Capture true vid_cap →
  let run := play_stored_video env ui conf model (initial s) in
  let '(fs, e, s') := serve model s (planned_requests ui conf vid_cap) in
  run.1 = Ret tt ∧
  engine run.2 = s' ∧
  opened run.2 = bool_decide (e ≠ None) ∧
  emitted (trace run.2) = fs ∧
  requests (trace run.2) =
    take (length fs + faults e) (planned_requests ui conf vid_cap) ∧
  errors (trace run.2) =
    match e with Some x => ["Error loading video: " +:+ x] | None => [] end ∧
  captures (trace run.2) = [stored_video_source env ui] ∧
  reads (trace run.2) = (length fs + 1)%nat ∧
  releases (trace run.2) = (1 - faults e)%nat.
Proof.
  intros Hb Hcap. simpl. rewrite play_stored_video_unfold, Hb.
  pose proof (guarded_opened "Error loading video: " env
    (stored_video_source env ui) conf model (display_tracker_options ui).1
    (display_tracker_options ui).2 vid_cap (initial s) Hcap) as H.
  simpl in H. fold (planned_requests ui conf vid_cap) in H.
  destruct (serve model s (planned_requests ui conf vid_cap)) as [[fs e] s'].
  destruct H as (t & -> & Hem & Hrq & Her & Hcp & Hrd & Hrl). simpl.
  change (EvVideoCapture (stored_video_source env ui) :: ?x)
    with ([EvVideoCapture (stored_video_source env ui)] ++ x).
  rewrite !emitted_app, !requests_app, !errors_app, !captures_app, !reads_app,
    !releases_app, Hem, Hrq, Her, Hcp, Hrd, Hrl.
  destruct e as [x|]; simpl; rewrite ?app_nil_r;
    repeat split; try done; lia.
Qed.

(** C5: a stored video whose capture opens and delivers N readable
    frames, processed by an engine that answers every request, yields
    exactly N emitted annotated frames, the engine's answers to the
    requests for those frames in stream order; the run returns normally
    with no diagnostic, after N+1 reads (one past the last readable
    frame), and the capture has been released, once, and is closed. *)
Theorem play_stored_video_exhausts env ui conf model s vid_cap :
  button ui = true →
  VideoCapture env (stored_video_source env ui) = Capture true vid_cap →
  (∀ s r, ∃ f s', model s r = (Ret f, s')) →
  let run := play_stored_video env ui conf model (initial s) in
  run.1 = Ret tt ∧
  length (emitted (trace run.2)) = length (readable vid_cap) ∧
  emitted (trace run.2) = (serve model s (planned_requests ui conf vid_cap)).1.1 ∧
  map (λ r, content (request_image r)) (requests (trace run.2)) =
    map content (readable vid_cap) ∧
  Forall (λ r, request_conf r = conf) (requests (trace run.2)) ∧
  errors (trace run.2) = [] ∧
  reads (trace run.2) = Datatypes.S (length (readable vid_cap)) ∧
  releases (trace run.2) = 1%nat ∧
  opened run.2 = false.
Proof.
  intros Hb Hcap Hok. simpl.
  pose proof (play_stored_video_run env ui conf model s vid_cap Hb Hcap) as H.
  pose proof (serve_total model s (planned_requests ui conf vid_cap) Hok) as [He Hlen].
  simpl in H.
  destruct (serve model s (planned_requests ui conf vid_cap)) as [[fs e] s'].
  simpl in He, Hlen. subst e.
  destruct H as (Hret & _ & Hop & Hem & Hrq & Her & _ & Hrd & Hrl).
  assert (Hn : length fs = length (readable vid_cap)).
  { rewrite Hlen. unfold planned_requests. by rewrite length_map. }
  cbn [faults] in Hrq. rewrite Nat.add_0_r, Hlen, firstn_all in Hrq.
  rewrite Hret, Hem, Hrq, Her, Hrd, Hrl, Hop, Hn.
  repeat split; try done.
  - unfold planned_requests. rewrite map_map. apply map_ext.
    intros f. unfold inference_request. by destruct (truthy _).
  - unfold planned_requests. apply Forall_map, Forall_forall. intros f _.
    apply inference_request_conf.
  - lia.
Qed.

(** C1 (as the code has it): in a stored-video run whose capture opens,
    the frames the engine answers are emitted in order up to the first
    frame it fails on; that frame is not emitted, one diagnostic
    carrying the exception text is surfaced, no request is made for any
    later frame, and the run returns without raising. *)
Theorem play_stored_video_stops_at_fault env ui conf model s vid_cap :
  button ui = true →
  VideoCapture env (stored_video_source env ui) = Capture true vid_cap →
  let run := play_stored_video env ui conf model (initial s) in
  let '(fs, e, _) := serve model s (planned_requests ui conf vid_cap) in
  run.1 = Ret tt ∧
  emitted (trace run.2) = fs ∧
  requests (trace run.2) =
    take (length fs + faults e) (planned_requests ui conf vid_cap) ∧
  errors (trace run.2) =
    match e with Some x => ["Error loading video: " +:+ x] | None => [] end.
Proof.
  intros Hb Hcap. simpl.
  pose proof (play_stored_video_run env ui conf model s vid_cap Hb Hcap) as H.
  simpl in H.
  destruct (serve model s (planned_requests ui conf vid_cap)) as [[fs e] s'].
  tauto.
Qed.
End StoredVideo.

(** Scenario A, an instance of C5: ten frames, tracking disabled,
    confidence 0.4. *)
Lemma play_stored_video_exhausts_scenario_A :
  let env := Scenario.env_of (Capture true (Scenario.video 10)) in
  let run := play_stored_video env Scenario.tracking_off (4 # 10)
               Scenario.engine_ok (initial tt) in
  button Scenario.tracking_off = true ∧
  display_tracker_options Scenario.tracking_off = (false, None) ∧
  run.1 = Ret tt ∧
  length (emitted (trace run.2)) = 10%nat ∧
  errors (trace run.2) = [] ∧
  reads (trace run.2) = 11%nat ∧
  releases (trace run.2) = 1%nat ∧
  opened run.2 = false.
Proof.
  destruct (play_stored_video_exhausts
    (Scenario.env_of (Capture true (Scenario.video 10)))
    Scenario.tracking_off (4 # 10) Scenario.engine_ok tt (Scenario.video 10)
    eq_refl eq_refl (λ s r, ex_intro _ _ (ex_intro _ s eq_refl)))
    as (H1 & H2 & _ & _ & _ & H3 & H4 & H5 & H6).
  cbv zeta. split; [reflexivity|]. split; [reflexivity|].
  split; [exact H1|]. split; [exact H2|]. split; [exact H3|].
  split; [exact H4|]. split; [exact H5|exact H6].
Defined.

(** Scenario C, an instance of the run up to the first fault: ten
    frames, tracking on, the engine faults on frame 5. *)
Lemma play_stored_video_stops_at_fault_scenario :
  let env := Scenario.env_of (Capture true (Scenario.video 10)) in
  let run := play_stored_video env Scenario.tracking_on (4 # 10)
               (Scenario.engine_faulting_on 5) (initial tt) in
  run.1 = Ret tt ∧
  map content (emitted (trace run.2)) = [1; 2; 3; 4]%nat ∧
  length (requests (trace run.2)) = 5%nat ∧
  errors (trace run.2) = ["Error loading video: engine fault"].
Proof.
  pose proof (play_stored_video_stops_at_fault
    (Scenario.env_of (Capture true (Scenario.video 10)))
    Scenario.tracking_on (4 # 10) (Scenario.engine_faulting_on 5) tt
    (Scenario.video 10) eq_refl eq_refl) as H.
  cbv zeta in H.
  match type of H with context [serve ?m ?s ?l] =>
    let v := eval vm_compute in (serve m s l) in
    change (serve m s l) with v in H
  end.
  cbv beta iota in H. destruct H as (H1 & H2 & H3 & H4).
  cbv zeta. rewrite H1, H2, H3, H4. clear. repeat split; reflexivity.
Defined.

(** C1 as stated fails: with ten frames and an engine that faults on
    frame 5 only, frames 1-4 are emitted and frames 6-10 are not. *)
Lemma inference_fault_drops_later_frames :
  let env := Scenario.env_of (Capture true (Scenario.video 10)) in
  let run := play_stored_video env Scenario.tracking_on (4 # 10)
               (Scenario.engine_faulting_on 5) (initial tt) in
  map content (emitted (trace run.2)) = [1; 2; 3; 4]%nat ∧
  ¬ (∀ n, n ∈ [1; 2; 3; 4; 6; 7; 8; 9; 10]%nat →
          n ∈ map content (emitted (trace run.2))).
Proof.
  assert (E : map content (emitted (trace (play_stored_video
      (Scenario.env_of (Capture true (Scenario.video 10))) Scenario.tracking_on
      (4 # 10) (Scenario.engine_faulting_on 5) (initial tt)).2))
      = [1; 2; 3; 4]%nat) by (vm_compute; reflexivity).
  cbv zeta. split; [exact E|]. rewrite E. intros H.
  assert (H6 : 6%nat ∈ [1; 2; 3; 4; 6; 7; 8; 9; 10]%nat)
    by (apply list_elem_of_In; simpl; auto 10).
  apply H, list_elem_of_In in H6. simpl in H6. lia.
Qed.

(** C2 on the failing input: ten frames, the engine faults on frame 5.
    The run returns, [release] has not been called and the capture is
    still open. *)
Theorem play_stored_video_fault_skips_release :
  let env := Scenario.env_of (Capture true (Scenario.video 10)) in
  let run := play_stored_video env Scenario.tracking_on (4 # 10)
               (Scenario.engine_faulting_on 5) (initial tt) in
  run.1 = Ret tt ∧ releases (trace run.2) = 0%nat ∧ opened run.2 = true.
Proof. vm_compute. done. Qed.

(** C4 on the failing input: an RTSP capture that comes back unopened.
    The run returns with the attempt to open as its only effect: no
    frame, and no diagnostic either. *)
Theorem play_rtsp_stream_unopened_is_silent {S} root yt vid_cap d t v rtsp_url
    conf (model : Model S) s :
  play_rtsp_stream (mkEnv root (λ _, Capture false vid_cap) yt)
      (mkInputs d t v rtsp_url true) conf model (initial s)
  = (Ret tt, mkWorld s false [EvVideoCapture (Url rtsp_url)]).
Proof.
  rewrite play_rtsp_stream_unfold. simpl.
  by rewrite (guarded_unopened _ _ _ _ _ _ _ vid_cap).
Qed.

(** ** YouTube: the stream the query selects *)

Lemma compatible_spec st : compatible st = true ↔ Compatible st.
Proof.
  unfold compatible, Compatible, query_accepts. cbn [py_truthy negb].
  change (720 =? 0) with false. change (String.eqb "mp4" "") with false.
  cbn [negb]. by rewrite andb_true_r, bool_decide_eq_true.
Qed.

Lemma compatible_false st : compatible st = false ↔ ¬ Compatible st.
Proof.
  rewrite <- compatible_spec. destruct (compatible st); split; congruence.
Qed.

(** The query of line 90 picks the first compatible stream. *)
Lemma first_compatible before st after :
  Forall (λ x, ¬ Compatible x) before → Compatible st →
  head (List.filter compatible (before ++ st :: after)) = Some st.
Proof.
  intros Hb Hst. induction Hb as [|x before Hx _ IH]; simpl.
  - apply compatible_spec in Hst. by rewrite Hst.
  - apply compatible_false in Hx. by rewrite Hx.
Qed.

Lemma none_compatible streams :
  Forall (λ x, ¬ Compatible x) streams →
  head (List.filter compatible streams) = None.
Proof.
  induction 1 as [|x streams Hx _ IH]; simpl; [done|].
  apply compatible_false in Hx. by rewrite Hx.
Qed.

Section YouTubeRun.
Context {S : Type}.
Implicit Types (model : Model S) (s : S).

(** A guarded run opens its source first and opens nothing else. *)
Lemma guarded_captures prefix env src conf model trk tracker s :
  head (trace (guarded prefix env src conf model trk tracker (initial s)).2)
    = Some (EvVideoCapture src) ∧
  captures (trace (guarded prefix env src conf model trk tracker (initial s)).2)
    = [src].
Proof.
  destruct (VideoCapture env src) as [x|[] vid_cap] eqn:Hcap.
  - by rewrite (guarded_raises _ _ _ _ _ _ _ x).
  - pose proof (guarded_opened prefix env src conf model trk tracker vid_cap
                  (initial s) Hcap) as H.
    simpl in H. destruct (serve model s _) as [[fs e] s'].
    destruct H as (t & -> & _ & _ & _ & Hcp & _). simpl. split; [done|].
    change (captures (EvVideoCapture src :: ?x)) with (src :: captures x).
    rewrite captures_app, Hcp. by destruct e.
  - by rewrite (guarded_unopened _ _ _ _ _ _ _ vid_cap).
Qed.

End YouTubeRun.

(** ** The zip batch: file names *)

Lemma string_length_app (p q : string) :
  String.length (p +:+ q) = (String.length p + String.length q)%nat.
Proof. induction p as [|c p IH]; simpl; [done|]. by rewrite IH. Qed.

Lemma py_lower_app (a b : string) :
  py_lower (a +:+ b) = py_lower a +:+ py_lower b.
Proof. induction a as [|c a IH]; simpl; [done|]. by rewrite IH. Qed.

(** A split of the lower-cased name is a split of the name. *)
Lemma py_lower_split (name p suffix : string) :
  py_lower name = p +:+ suffix →
  ∃ stem ext, name = stem +:+ ext ∧ py_lower stem = p ∧ py_lower ext = suffix.
Proof.
  revert name. induction p as [|c p IH]; intros name H.
  - by exists "", name.
  - destruct name as [|c0 name']; simpl in H; [discriminate|].
    injection H as Hc Hr. destruct (IH _ Hr) as (stem & ext & -> & <- & <-).
    exists (String c0 stem), ext. simpl. by rewrite Hc.
Qed.

Lemma py_slice_from_app (p suffix : string) :
  py_slice_from (String.length p) (p +:+ suffix) = suffix.
Proof. induction p as [|c p IH]; simpl; [by destruct suffix|done]. Qed.

Lemma py_slice_from_split (n : nat) (s : string) :
  (n ≤ String.length s)%nat → ∃ p, s = p +:+ py_slice_from n s.
Proof.
  revert s. induction n as [|n IH]; intros s Hn.
  - by exists "".
  - destruct s as [|c s]; simpl in *; [lia|].
    destruct (IH s ltac:(lia)) as [p Hp]. exists (String c p). exact (f_equal (String c) Hp).
Qed.

Lemma py_endswith_spec (s suffix : string) :
  py_endswith s suffix = true ↔ ∃ p, s = p +:+ suffix.
Proof.
  unfold py_endswith. rewrite andb_true_iff, Nat.leb_le, String.eqb_eq. split.
  - intros [Hlen Heq].
    destruct (py_slice_from_split (String.length s - String.length suffix) s
                ltac:(lia)) as [p Hp].
    exists p. by rewrite Heq in Hp.
  - intros [p ->]. rewrite string_length_app. split; [lia|].
    replace (String.length p + String.length suffix - String.length suffix)%nat
      with (String.length p) by lia.
    apply py_slice_from_app.
Qed.

(** The test of line 63, in words: the name ends in one of the five
    extensions, in any mix of upper and lower case. *)
Lemma is_image_name_spec (name : string) :
  is_image_name name = true ↔
  ∃ stem ext, name = stem +:+ ext ∧ py_lower ext ∈ IMAGE_SUFFIXES.
Proof.
  unfold is_image_name, py_endswith_any. rewrite existsb_exists. split.
  - intros (suffix & Hin & Hend). apply py_endswith_spec in Hend as [p Hp].
    destruct (py_lower_split _ _ _ Hp) as (stem & ext & -> & _ & <-).
    exists stem, ext. split; [done|]. by apply list_elem_of_In.
  - intros (stem & ext & -> & Hin). exists (py_lower ext).
    split; [by apply list_elem_of_In|].
    apply py_endswith_spec. exists (py_lower stem). apply py_lower_app.
Qed.

(** ** The zip batch: the detection loop and the collage *)

Lemma displayed_app t1 t2 : displayed (t1 ++ t2) = displayed t1 ++ displayed t2.
Proof. apply omap_app. Qed.

Lemma omap_concat {A B} (g : A → option B) (ls : list (list A)) :
  omap g (concat ls) = concat (map (omap g) ls).
Proof.
  induction ls as [|l ls IH]; simpl; [done|]. by rewrite omap_app, IH.
Qed.

Lemma concat_map_nil {A B} (f : A → list B) (l : list A) :
  (∀ x, f x = []) → concat (map f l) = [].
Proof. intros H. induction l as [|x l IH]; simpl; [done|]. by rewrite H, IH. Qed.

(** Reading a list back cell by cell, over at least its length. *)
Lemma collect_lookup {A} (l : list A) (m : nat) :
  (length l ≤ m)%nat →
  concat (map (λ k, option_list (l !! k)) (seq 0 m)) = l.
Proof.
  revert m. induction l as [|x l IH]; intros m Hm.
  - apply concat_map_nil. intros k. by rewrite lookup_nil.
  - destruct m as [|m]; simpl in Hm; [lia|].
    simpl. f_equal. rewrite <- fmap_S_seq.
    change (map ?f (S <$> ?l0)) with (map f (map S l0)).
    rewrite map_map. simpl. apply IH. lia.
Qed.

(** Rows of three cells, read row by row, are the cells in order. *)
Lemma rows_flatten {B} (g : nat → list B) (rows : nat) :
  concat (map (λ i, concat (map (λ j, g (i * 3 + j)%nat) (seq 0 3))) (seq 0 rows))
  = concat (map g (seq 0 (rows * 3))).
Proof.
  induction rows as [|r IH]; [done|].
  rewrite (seq_S r 0), map_app, concat_app, IH.
  replace (S r * 3)%nat with (r * 3 + 3)%nat by lia.
  rewrite (seq_app (r * 3) 3 0), map_app, concat_app. simpl.
  replace (r * 3 + 0)%nat with (r * 3)%nat by lia.
  replace (r * 3 + 1)%nat with (S (r * 3)) by lia.
  replace (r * 3 + 2)%nat with (S (S (r * 3))) by lia.
  by rewrite !app_nil_r.
Qed.

Section UploadRun.
Context {S : Type}.
Implicit Types (model : Model S) (w : World S) (env : UploadEnv S).

Lemma for_each_steps {A} (xs : list A) (body : A → M S unit)
    (ev : A → list Event) w :
  (∀ x w', steps (body x) w' (ev x)) →
  steps (for_each xs body) w (concat (map ev xs)).
Proof.
  intros Hbody. revert w. induction xs as [|x xs IH]; intros w; unfold steps; simpl.
  - unfold ret. destruct w; simpl. by rewrite app_nil_r.
  - unfold bind. rewrite (Hbody x w). rewrite (IH _). simpl. by rewrite app_assoc.
Qed.

Lemma show_collage_run (detected_images : list (string * Frame)) w :
  ∃ t, steps (show_collage detected_images) w t ∧
       displayed t = map caption_of detected_images ∧
       requests t = [] ∧ errors t = [].
Proof.
  unfold show_collage. case_bool_decide as Hne.
  2: { exists []. assert (detected_images = []) as -> by (by destruct detected_images).
       unfold steps. destruct w; simpl. by rewrite app_nil_r. }
  set (n := length detected_images).
  set (rows := ((n + 3 - 1) / 3)%nat).
  assert (Hrows : (n ≤ rows * 3)%nat).
  { unfold rows. pose proof (Nat.div_mod_eq (n + 3 - 1) 3).
    pose proof (Nat.mod_upper_bound (n + 3 - 1) 3). lia. }
  pose (inner := λ i : nat,
          concat (map (λ j, cell_events detected_images (i * 3 + j)) (seq 0 3))).
  exists ([EvWrite "Detected Images:"] ++ concat (map inner (seq 0 rows))).
  split; [|split; [|split]].
  - unfold steps, mbind, M_bind. unfold bind at 1. unfold emit at 1.
    cbv beta iota zeta. fold n. fold rows.
    match goal with |- for_each _ ?b ?w0 = _ =>
      pose proof (for_each_steps (seq 0 rows) b inner w0) as H end.
    unfold steps in H. cbn [engine opened trace] in H.
    rewrite H; [by rewrite <- app_assoc|].
    intros i w'. unfold inner. apply for_each_steps. intros j w''.
    unfold steps, cell_events, emit, raise.
    destruct (Nat.ltb_spec (i * 3 + j) n) as [Hlt|Hge].
    + destruct (lookup_lt_is_Some_2 detected_images (i * 3 + j) Hlt) as [[fn img] ->].
      reflexivity.
    + rewrite (lookup_ge_None_2 detected_images (i * 3 + j)) by done. reflexivity.
  - rewrite displayed_app. simpl. unfold inner. rewrite rows_flatten.
    unfold displayed at 1. rewrite omap_concat, map_map.
    rewrite <- (collect_lookup (map caption_of detected_images) (rows * 3))
      by (by rewrite length_map).
    f_equal. apply map_ext. intros k. unfold cell_events.
    rewrite list_lookup_fmap. by destruct (detected_images !! k).
  - rewrite requests_app. simpl. unfold inner. rewrite rows_flatten.
    unfold requests. rewrite omap_concat, map_map. apply concat_map_nil.
    intros k. unfold cell_events. by destruct (detected_images !! k).
  - rewrite errors_app. simpl. unfold inner. rewrite rows_flatten.
    unfold errors. rewrite omap_concat, map_map. apply concat_map_nil.
    intros k. unfold cell_events. by destruct (detected_images !! k).
Qed.
End UploadRun.

Lemma kept_cons (n : string) (img : Frame) (o : Outcome Frame) named answers :
  kept ((n, img) :: named) (o :: answers) =
    match o with
    | Ret f => (n, reverse_channels f) :: kept named answers
    | Raise _ => kept named answers
    end.
Proof. by destruct o. Qed.

(** A diagnostic about a later file is a diagnostic about a file. *)
Lemma later_errors (p0 : string * string) (rest : list (string * string))
    (msgs : list string) :
  Forall (λ m, ∃ p x, p ∈ rest ∧ is_image_name p.1 = true ∧
                      m = "Error processing image " +:+ p.1 +:+ ": " +:+ x) msgs →
  Forall (λ m, ∃ p x, p ∈ p0 :: rest ∧ is_image_name p.1 = true ∧
                      m = "Error processing image " +:+ p.1 +:+ ": " +:+ x) msgs.
Proof.
  intros H. eapply Forall_impl; [exact H|].
  intros m (p & y & Hp & Hi & ->). exists p, y.
  split; [by apply elem_of_cons; right|done].
Qed.

Section UploadApp.
Context {S : Type}.
Implicit Types (model : Model S) (w : World S) (env : UploadEnv S).

(** The detection loop: one request per image-named, decodable file, in
    archive order; every image-named file ends as one kept image or one
    diagnostic; nothing is displayed yet; the loop returns. *)
Lemma detect_images_run env model confidence files acc w :
  ∃ t s',
    detect_images env model confidence files acc w =
      (Ret (acc ++ kept (submitted env files)
                     (answer_all model (engine w) (batch_requests env confidence files))),
       mkWorld s' (opened w) (trace w ++ t)) ∧
    requests t = batch_requests env confidence files ∧
    displayed t = [] ∧
    (length (errors t)
     + length (kept (submitted env files)
                 (answer_all model (engine w) (batch_requests env confidence files)))
     = length (List.filter (λ p, is_image_name p.1) files))%nat ∧
    Forall (λ m, ∃ p x, p ∈ files ∧ is_image_name p.1 = true ∧
                        m = "Error processing image " +:+ p.1 +:+ ": " +:+ x)
           (errors t).
Proof.
  revert acc w. induction files as [|[n d] rest IH]; intros acc w.
  - exists [], (engine w). simpl. unfold mret, M_ret, ret. destruct w; simpl.
    rewrite !app_nil_r. repeat split; constructor.
  - cbn [detect_images]. unfold mbind, M_bind. unfold bind at 1.
    unfold batch_requests, submitted. cbn [omap list_omap fst snd].
    fold (submitted env rest). fold (batch_requests env confidence rest).
    cbn [List.filter fst]. destruct (is_image_name n) eqn:Hn.
    + unfold try_except, mbind, M_bind, bind, lift, mret, M_ret, ret, raise.
      destruct (PIL_open env d) as [img|x] eqn:Hpil.
      * unfold call_model. cbn [map answer_all snd fst].
        fold (batch_requests env confidence rest).
        destruct (model (engine w) (Predict img confidence)) as [[f|x] s1] eqn:Hm;
          cbn [fst snd engine opened trace emit]; rewrite kept_cons.
        -- destruct (IH (acc ++ [(n, reverse_channels f)])
                       (mkWorld s1 (opened w) (trace w ++ [EvInfer (Predict img confidence)])))
             as (t & s' & -> & Hrq & Hdp & Hlen & Herr).
           cbn [engine opened trace] in *.
           exists (EvInfer (Predict img confidence) :: t), s'.
           split; [by rewrite <- !app_assoc|].
           split; [by rewrite <- Hrq|]. split; [exact Hdp|]. split.
           ++ change (errors (EvInfer ?r :: ?t0)) with (errors t0).
              cbn [length]. lia.
           ++ change (errors (EvInfer ?r :: ?t0)) with (errors t0).
              by apply later_errors.
        -- destruct (IH acc
             (mkWorld s1 (opened w)
                ((trace w ++ [EvInfer (Predict img confidence)])
                 ++ [EvError ("Error processing image " +:+ n +:+ ": " +:+ x)])))
             as (t & s' & -> & Hrq & Hdp & Hlen & Herr).
           cbn [engine opened trace] in *.
           exists (EvInfer (Predict img confidence)
                   :: EvError ("Error processing image " +:+ n +:+ ": " +:+ x) :: t), s'.
           split; [by rewrite <- !app_assoc|].
           split; [by rewrite <- Hrq|]. split; [exact Hdp|].
           change (errors (EvInfer ?r :: EvError ?m :: ?t0)) with (m :: errors t0).
           split; [cbn [length]; lia|].
           constructor; [|by apply later_errors].
           exists (n, d), x. split; [apply elem_of_cons; by left|done].
      * destruct (IH acc
          (mkWorld (engine w) (opened w)
             (trace w ++ [EvError ("Error processing image " +:+ n +:+ ": " +:+ x)])))
          as (t & s' & Hrun & Hrq & Hdp & Hlen & Herr).
        cbn [engine opened trace] in *.
        exists (EvError ("Error processing image " +:+ n +:+ ": " +:+ x) :: t), s'.
        split.
        { unfold emit. cbn [engine opened trace]. rewrite Hrun.
          by rewrite <- !app_assoc. }
        split; [exact Hrq|]. split; [exact Hdp|].
        change (errors (EvError ?m :: ?t0)) with (m :: errors t0).
        split; [unfold batch_requests in *; cbn [length]; lia|].
        constructor; [|by apply later_errors].
        exists (n, d), x. split; [apply elem_of_cons; by left|done].
    + unfold mret, M_ret, ret.
      destruct (IH acc w) as (t & s' & -> & Hrq & Hdp & Hlen & Herr).
      exists t, s'. split; [done|]. split; [done|]. split; [done|].
      split; [exact Hlen|by apply later_errors].
Qed.

(** Reading the members touches neither the page nor the engine. *)
Lemma extract_members_run (infolist : list ZipInfo) acc w :
  ∃ o, extract_members (S := S) infolist acc w = (o, w).
Proof.
  revert acc. induction infolist as [|zi rest IH]; intros acc; simpl.
  - by eexists.
  - unfold mbind, M_bind, bind, lift, mret, M_ret, ret, raise.
    destruct (read zi) as [data|x]; [apply IH|by eexists].
Qed.

Lemma extract_members_readable (files : list (string * string)) acc w :
  extract_members (S := S) (map member files) acc w = (Ret (acc ++ files), w).
Proof.
  revert acc. induction files as [|[n d] rest IH]; intros acc; simpl.
  - unfold mret, M_ret, ret. by rewrite app_nil_r.
  - unfold mbind, M_bind, bind, lift, mret, M_ret, ret. simpl.
    rewrite IH. by rewrite <- app_assoc.
Qed.
End UploadApp.

(** ** The zip batch: the page (C9, C10) *)

Lemma source_radio_is_image (choice : nat) :
  String.eqb (st_radio [IMAGE] choice) IMAGE = true.
Proof. by destruct choice. Qed.

Section UploadPage.
Context {S : Type}.
Implicit Types (model : Model S) (s : S) (env : UploadEnv S).

(** The page when the model loads and the archive extracts. *)
Lemma app_batch env ui model s zf files :
  load_model env = Ret model →
  zip_file ui = Some zf →
  extract_zip_in_memory zf (initial s) = (Ret files, initial s) →
  let answers :=
    answer_all model s (batch_requests env (page_confidence ui) files) in
  ∃ t s',
    app env ui (initial s) = (Ret tt, mkWorld s' false t) ∧
    requests t = batch_requests env (page_confidence ui) files ∧
    displayed t = map caption_of (kept (submitted env files) answers) ∧
    (length (errors t) + length (displayed t)
     = length (List.filter (λ p, is_image_name p.1) files))%nat ∧
    Forall (λ m, ∃ p x, p ∈ files ∧ is_image_name p.1 = true ∧
                        m = "Error processing image " +:+ p.1 +:+ ": " +:+ x)
           (errors t).
Proof.
  intros Hload Hzip Hext. cbv zeta.
  destruct (detect_images_run env model (page_confidence ui) files [] (initial s))
    as (t1 & s1 & Hdet & Hrq & Hdp & Hlen & Herr).
  cbn [engine opened trace initial app_nil_l] in *.
  set (imgs := kept (submitted env files)
                 (answer_all model s (batch_requests env (page_confidence ui) files))) in *.
  destruct (show_collage_run imgs (mkWorld s1 false t1))
    as (t2 & Hshow & Hdp2 & Hrq2 & Her2).
  unfold steps in Hshow. cbn [engine opened trace] in Hshow.
  exists (t1 ++ t2), s1. split.
  - unfold app. rewrite Hload, source_radio_is_image, Hzip.
    unfold try_except, mbind, M_bind. unfold bind at 1. rewrite Hext.
    unfold bind. fold (page_confidence ui). rewrite Hdet.
    change ([] ++ imgs) with imgs. change ([] ++ t1) with t1. by rewrite Hshow.
  - rewrite requests_app, displayed_app, errors_app, Hrq, Hrq2, Hdp, Hdp2, Her2,
      !app_nil_r.
    change ([] ++ ?l) with l. rewrite length_map.
    repeat split; try done.
Qed.

(** Every other way through the page makes no request at all. *)
Lemma app_requests env ui s :
  ∃ files, requests (trace (app env ui (initial s)).2)
           = batch_requests env (page_confidence ui) files.
Proof.
  destruct (load_model env) as [model|x] eqn:Hload.
  2: { exists []. unfold app. by rewrite Hload. }
  destruct (zip_file ui) as [zf|] eqn:Hzip.
  2: { exists []. unfold app. by rewrite Hload, source_radio_is_image, Hzip. }
  destruct zf as [infolist|x].
  - destruct (extract_members_run (S := S) infolist [] (initial s)) as [[files|x] Hext].
    + destruct (app_batch env ui model s (Ret infolist) files Hload Hzip Hext)
        as (t & s' & -> & Hrq & _).
      by exists files.
    + exists []. unfold app. rewrite Hload, source_radio_is_image, Hzip.
      unfold try_except, mbind, M_bind. unfold bind at 1.
      unfold extract_zip_in_memory, lift, mbind, M_bind, mret, M_ret.
      unfold bind at 1. unfold ret at 1. rewrite Hext. reflexivity.
  - exists []. unfold app. by rewrite Hload, source_radio_is_image, Hzip.
Qed.

Lemma st_slider_range (min_value max_value value : Z) (dragged_to : option Z) :
  min_value ≤ value ≤ max_value →
  min_value ≤ st_slider min_value max_value value dragged_to ≤ max_value.
Proof. intros H. unfold st_slider. destruct dragged_to; lia. Qed.

(** C9: the confidence of the zip batch is the value of the slider over
    100, and the slider of the page runs from 25 to 100 with 40 as its
    start, so the confidence lies between 0.25 and 1.0 wherever the
    handle is.  Every predict call of the page carries that confidence,
    and when the model has loaded and the archive extracts, the calls
    made are those for its image files, each with that confidence:
    nothing below 0.25 can be requested. *)
Theorem app_confidence_bounds env ui s :
  (∃ v, 25 ≤ v ≤ 100 ∧ page_confidence ui = (inject_Z v / 100)%Q) ∧
  (1 # 4 <= page_confidence ui)%Q ∧ (page_confidence ui <= 1)%Q ∧
  Forall (λ r, ∃ img, r = Predict img (page_confidence ui))
    (requests (trace (app env ui (initial s)).2)) ∧
  (∀ model files,
     load_model env = Ret model →
     zip_file ui = Some (Ret (map member files)) →
     requests (trace (app env ui (initial s)).2) =
       map (λ p, Predict p.2 (page_confidence ui)) (submitted env files)).
Proof.
  pose proof (st_slider_range 25 100 40 (slider ui) ltac:(lia)) as Hv.
  split; [by exists (st_slider 25 100 40 (slider ui))|].
  split; [unfold page_confidence, Qle; simpl; lia|].
  split; [unfold page_confidence, Qle; simpl; lia|].
  split.
  - destruct (app_requests env ui s) as [files ->].
    unfold batch_requests. apply Forall_map, Forall_forall. intros p _.
    by exists p.2.
  - intros model files Hload Hzip.
    assert (Hext : extract_zip_in_memory (S := S) (Ret (map member files)) (initial s)
                   = (Ret files, initial s)).
    { unfold extract_zip_in_memory, lift, mbind, M_bind, mret, M_ret.
      unfold bind at 1. unfold ret at 1.
      by rewrite extract_members_readable. }
    destruct (app_batch env ui model s _ files Hload Hzip Hext)
      as (t & s' & -> & Hrq & _).
    exact Hrq.
Qed.

(** C10: when the model has loaded and the uploaded archive extracts to
    [files], (a) a name passes the filter exactly when it ends, in any
    letter case, in .jpg, .jpeg, .png, .bmp or .webp; (b) the requests
    made are the predict calls for the image-named files that decode,
    in archive order, and nothing else; (c) the page returns; (d) the
    images displayed are, in archive order, the answers of the engine
    for those files, one per answered request, under the file's name;
    (e) every image-named file gives either one displayed image or one
    diagnostic, and every diagnostic names an image-named file. *)
Theorem app_detects_image_files env ui model s files :
  load_model env = Ret model →
  zip_file ui = Some (Ret (map member files)) →
  let run := app env ui (initial s) in
  let answers :=
    answer_all model s (batch_requests env (page_confidence ui) files) in
  (∀ name, is_image_name name = true ↔
           ∃ stem ext, name = stem +:+ ext ∧ py_lower ext ∈ IMAGE_SUFFIXES) ∧
  requests (trace run.2) = batch_requests env (page_confidence ui) files ∧
  run.1 = Ret tt ∧
  displayed (trace run.2) = map caption_of (kept (submitted env files) answers) ∧
  (length (errors (trace run.2)) + length (displayed (trace run.2))
   = length (List.filter (λ p, is_image_name p.1) files))%nat ∧
  Forall (λ m, ∃ p x, p ∈ files ∧ is_image_name p.1 = true ∧
                      m = "Error processing image " +:+ p.1 +:+ ": " +:+ x)
         (errors (trace run.2)).
Proof.
  intros Hload Hzip. cbv zeta. split; [exact is_image_name_spec|].
  assert (Hext : extract_zip_in_memory (S := S) (Ret (map member files)) (initial s)
                 = (Ret files, initial s)).
  { unfold extract_zip_in_memory, lift, mbind, M_bind, mret, M_ret.
    unfold bind at 1. unfold ret at 1.
    by rewrite extract_members_readable. }
  destruct (app_batch env ui model s _ files Hload Hzip Hext)
    as (t & s' & -> & Hrq & Hdp & Hlen & Herr).
  done.
Qed.
End UploadPage.

(** ** The zip batch on a concrete archive *)

Example st_slider_examples :
  st_slider 25 100 40 None = 40 ∧ st_slider 25 100 40 (Some 25) = 25 ∧
  st_slider 25 100 40 (Some 7) = 25 ∧ st_slider 25 100 40 (Some 250) = 100.
Proof. repeat split; reflexivity. Qed.

(** An instance of C9, with the slider at its lowest position: the two
    predict calls of the archive carry 0.25. *)
Lemma app_confidence_bounds_lowest :
  page_confidence Batch.ui_low = (25 # 100)%Q ∧
  (1 # 4 <= page_confidence Batch.ui_low)%Q ∧
  map request_conf (requests (trace (app Batch.env Batch.ui_low (initial tt)).2))
    = [(25 # 100)%Q; (25 # 100)%Q].
Proof.
  destruct (app_confidence_bounds Batch.env Batch.ui_low tt)
    as (_ & Hlow & _ & _ & Hreq).
  split; [reflexivity|]. split; [exact Hlow|].
  rewrite (Hreq Scenario.engine_ok Batch.files eq_refl eq_refl). reflexivity.
Defined.

(** An instance of C10: of four members, the text file is skipped, the
    corrupt image gives a diagnostic, and the two others are displayed
    in archive order. *)
Lemma app_detects_image_files_example :
  let run := app Batch.env Batch.ui (initial tt) in
  load_model Batch.env = Ret Scenario.engine_ok ∧
  zip_file Batch.ui = Some (Ret (map member Batch.files)) ∧
  run.1 = Ret tt ∧
  map snd (displayed (trace run.2)) =
    ["Detected Image: tower/A.JPG"; "Detected Image: c.WebP"] ∧
  length (requests (trace run.2)) = 2%nat ∧
  (length (errors (trace run.2)) + length (displayed (trace run.2)) = 3)%nat.
Proof.
  destruct (app_detects_image_files Batch.env Batch.ui Scenario.engine_ok tt
              Batch.files eq_refl eq_refl) as (_ & H1 & H2 & H3 & H4 & _).
  cbv zeta. rewrite H1, H2, H3 in *. clear H1 H2 H3.
  split; [reflexivity|]. split; [reflexivity|]. split; [reflexivity|].
  split; [reflexivity|]. split; [reflexivity|]. exact H4.
Defined.

(** * Further properties *)

(** ** Every source kind: what a run never does *)

Lemma serve_faults_length {S} (model : Model S) s reqs :
  (length (serve model s reqs).1.1 + faults (serve model s reqs).1.2
   ≤ length reqs)%nat.
Proof.
  revert s. induction reqs as [|r rest IH]; intros s; simpl; [lia|].
  destruct (model s r) as [[f|e] s']; simpl; [|lia].
  specialize (IH s'). destruct (serve model s' rest) as [[fs e'] s'']. simpl in *. lia.
Qed.

Section Orderly.
Context {S : Type}.
Implicit Types (model : Model S) (s : S).

(** The guarded run from a fresh page, capture opened: every
    projection of the trace. *)
Lemma guarded_run prefix env src conf model trk tracker vid_cap s :
  VideoCapture env src = Capture true vid_cap →
  let reqs := map (λ f, inference_request conf (resized f) (Some trk) tracker)
                  (readable vid_cap) in
  let run := guarded prefix env src conf model trk tracker (initial s) in
  let '(fs, e, s') := serve model s reqs in
  run.1 = Ret tt ∧
  engine run.2 = s' ∧
  opened run.2 = bool_decide (e ≠ None) ∧
  captures (trace run.2) = [src] ∧
  emitted (trace run.2) = fs ∧
  requests (trace run.2) = take (length fs + faults e) reqs ∧
  errors (trace run.2) =
    match e with Some x => [prefix +:+ x] | None => [] end ∧
  reads (trace run.2) = (length fs + 1)%nat ∧
  releases (trace run.2) = (1 - faults e)%nat.
Proof.
  intros Hcap. cbv zeta.
  pose proof (guarded_opened prefix env src conf model trk tracker vid_cap
                (initial s) Hcap) as H.
  cbv zeta in H. cbn [engine initial] in H.
  destruct (serve model s _) as [[fs e] s'].
  destruct H as (t & -> & Hem & Hrq & Her & Hcp & Hrd & Hrl).
  cbn [fst snd engine opened trace initial].
  change ([] ++ [EvVideoCapture src] ++ ?x) with ([EvVideoCapture src] ++ x).
  rewrite !emitted_app, !requests_app, !errors_app, !captures_app, !reads_app,
    !releases_app, Hem, Hrq, Her, Hcp, Hrd, Hrl.
  destruct e as [x|]; cbn; rewrite ?app_nil_r; repeat split; try done; lia.
Qed.

Lemma guarded_orderly prefix env src conf model trk tracker s :
  orderly (guarded prefix env src conf model trk tracker (initial s)).
Proof.
  unfold orderly.
  destruct (VideoCapture env src) as [x|[] vid_cap] eqn:Hcap.
  - rewrite (guarded_raises _ _ _ _ _ _ _ x) by done. cbn.
    repeat split; try lia; try discriminate.
  - pose proof (guarded_run prefix env src conf model trk tracker vid_cap s Hcap) as H.
    cbv zeta in H.
    pose proof (serve_faults_length model s
      (map (λ f, inference_request conf (resized f) (Some trk) tracker)
           (readable vid_cap))) as Hlen.
    destruct (serve model s _) as [[fs e] s'].
    cbn [fst snd] in Hlen.
    destruct H as (-> & _ & -> & -> & -> & -> & -> & _ & ->).
    rewrite length_take.
    destruct e as [x|]; cbn [faults length] in *; repeat split; try lia;
      try (intros _; apply bool_decide_eq_false_2; intros H; by apply H).
  - rewrite (guarded_unopened _ _ _ _ _ _ _ vid_cap) by done. cbn.
    repeat split; try lia; try discriminate.
Qed.

Lemma idle_orderly s : orderly (S := S) (Ret tt, initial s).
Proof. unfold orderly. cbn. repeat split; try lia; try discriminate. Qed.

Lemma report_orderly (msg : string) s :
  orderly (S := S) (emit (EvError msg) (initial s)).
Proof. unfold orderly. cbn. repeat split; try lia; try discriminate. Qed.

End Orderly.

(** ** Webcam, RTSP and YouTube runs on a capture that opens *)

(** Evaluates the engine's answers inside a run lemma instantiated on a
    concrete run. *)
Ltac eval_serve H :=
  cbv zeta in H;
  match type of H with context [serve ?m ?s ?l] =>
    let v := eval vm_compute in (serve m s l) in
    change (serve m s l) with v in H
  end;
  cbv beta iota in H.

Section OtherSources.
Context {S : Type}.
Implicit Types (model : Model S) (s : S).

(** X2: a webcam run whose capture opens opens device 0 and nothing
    else; it emits the engine's answers for the frames read, in order,
    up to the first failed read or the first engine fault.  A failed
    read ends the run with one release and no diagnostic; an engine
    fault ends it with the diagnostic "Error loading video: ..." and no
    release.  The engine is left in the state its last call produced. *)
Theorem play_webcam_run env ui conf model s vid_cap :
  button ui = true →
  VideoCapture env (Device 0) = Capture true vid_cap →
  let run := play_webcam env ui conf model (initial s) in
  let '(fs, e, s') := serve model s (planned_requests ui conf vid_cap) in
  run.1 = Ret tt ∧
  engine run.2 = s' ∧
  opened run.2 = bool_decide (e ≠ None) ∧
  captures (trace run.2) = [Device 0] ∧
  emitted (trace run.2) = fs ∧
  requests (trace run.2) =
    take (length fs + faults e) (planned_requests ui conf vid_cap) ∧
  errors (trace run.2) =
    match e with Some x => ["Error loading video: " +:+ x] | None => [] end ∧
  reads (trace run.2) = (length fs + 1)%nat ∧
  releases (trace run.2) = (1 - faults e)%nat.
Proof.
  intros Hb Hcap. cbv zeta. rewrite play_webcam_unfold, Hb.
  exact (guarded_run "Error loading video: " env (Device 0) conf model
           (display_tracker_options ui).1 (display_tracker_options ui).2
           vid_cap s Hcap).
Qed.

(** X3: the same for an RTSP run, on the URL typed in the sidebar and
    with the diagnostic "Error loading RTSP stream: ...". *)
Theorem play_rtsp_stream_run env ui conf model s vid_cap :
  button ui = true →
  VideoCapture env (Url (text_input ui)) = Capture true vid_cap →
  let run := play_rtsp_stream env ui conf model (initial s) in
  let '(fs, e, s') := serve model s (planned_requests ui conf vid_cap) in
  run.1 = Ret tt ∧
  engine run.2 = s' ∧
  opened run.2 = bool_decide (e ≠ None) ∧
  captures (trace run.2) = [Url (text_input ui)] ∧
  emitted (trace run.2) = fs ∧
  requests (trace run.2) =
    take (length fs + faults e) (planned_requests ui conf vid_cap) ∧
  errors (trace run.2) =
    match e with Some x => ["Error loading RTSP stream: " +:+ x] | None => [] end ∧
  reads (trace run.2) = (length fs + 1)%nat ∧
  releases (trace run.2) = (1 - faults e)%nat.
Proof.
  intros Hb Hcap. cbv zeta. rewrite play_rtsp_stream_unfold, Hb.
  exact (guarded_run "Error loading RTSP stream: " env (Url (text_input ui))
           conf model (display_tracker_options ui).1
           (display_tracker_options ui).2 vid_cap s Hcap).
Qed.

(** X4: the same for a YouTube run once the descriptor has resolved:
    the capture is the one on the URL of the first mp4 stream, whatever
    its resolution. *)
Theorem play_youtube_video_run env ui conf model s before st after vid_cap :
  button ui = true →
  YouTube env (text_input ui) = Ret (before ++ st :: after) →
  Forall (λ x, ¬ Compatible x) before → Compatible st →
  VideoCapture env (Url (url st)) = Capture true vid_cap →
  let run := play_youtube_video env ui conf model (initial s) in
  let '(fs, e, s') := serve model s (planned_requests ui conf vid_cap) in
  run.1 = Ret tt ∧
  engine run.2 = s' ∧
  opened run.2 = bool_decide (e ≠ None) ∧
  captures (trace run.2) = [Url (url st)] ∧
  emitted (trace run.2) = fs ∧
  requests (trace run.2) =
    take (length fs + faults e) (planned_requests ui conf vid_cap) ∧
  errors (trace run.2) =
    match e with Some x => ["Error loading video: " +:+ x] | None => [] end ∧
  reads (trace run.2) = (length fs + 1)%nat ∧
  releases (trace run.2) = (1 - faults e)%nat.
Proof.
  intros Hb Hyt Hbefore Hst Hcap. cbv zeta.
  rewrite play_youtube_video_unfold, Hb, Hyt,
    (first_compatible before st after Hbefore Hst).
  exact (guarded_run "Error loading video: " env (Url (url st)) conf model
           (display_tracker_options ui).1 (display_tracker_options ui).2
           vid_cap s Hcap).
Qed.

(** X5: when [cv2.VideoCapture] raises, the run of [play_stored_video],
    [play_webcam] or [play_rtsp_stream] consists of the attempt to open
    and one diagnostic, the function's prefix followed by the
    exception's text; nothing is read, requested or released. *)
Theorem open_failure_is_reported env ui conf model s x :
  button ui = true →
  (∀ src, VideoCapture env src = OpenRaises x) →
  play_stored_video env ui conf model (initial s) =
    (Ret tt, mkWorld s false [EvVideoCapture (stored_video_source env ui);
                              EvError ("Error loading video: " +:+ x)]) ∧
  play_webcam env ui conf model (initial s) =
    (Ret tt, mkWorld s false [EvVideoCapture (Device 0);
                              EvError ("Error loading video: " +:+ x)]) ∧
  play_rtsp_stream env ui conf model (initial s) =
    (Ret tt, mkWorld s false [EvVideoCapture (Url (text_input ui));
                              EvError ("Error loading RTSP stream: " +:+ x)]).
Proof.
  intros Hb Hcap.
  rewrite play_stored_video_unfold, play_webcam_unfold, play_rtsp_stream_unfold, Hb.
  rewrite !(guarded_raises _ _ _ _ _ _ _ x) by apply Hcap. done.
Qed.

(** X6: the capture that comes back unopened is passed over in silence
    by the other three functions as well: the run is the attempt to
    open (for YouTube, on the URL of the first mp4 stream) and nothing
    else. *)
Theorem unopened_capture_is_silent env ui conf model s vid_cap :
  button ui = true →
  (∀ src, VideoCapture env src = Capture false vid_cap) →
  play_stored_video env ui conf model (initial s) =
    (Ret tt, mkWorld s false [EvVideoCapture (stored_video_source env ui)]) ∧
  play_webcam env ui conf model (initial s) =
    (Ret tt, mkWorld s false [EvVideoCapture (Device 0)]) ∧
  (∀ before st after,
     YouTube env (text_input ui) = Ret (before ++ st :: after) →
     Forall (λ x, ¬ Compatible x) before → Compatible st →
     play_youtube_video env ui conf model (initial s) =
       (Ret tt, mkWorld s false [EvVideoCapture (Url (url st))])).
Proof.
  intros Hb Hcap.
  rewrite play_stored_video_unfold, play_webcam_unfold, Hb.
  rewrite !(guarded_unopened _ _ _ _ _ _ _ vid_cap) by apply Hcap.
  split; [done|]. split; [done|].
  intros before st after Hyt Hbefore Hst.
  rewrite play_youtube_video_unfold, Hb, Hyt,
    (first_compatible before st after Hbefore Hst).
  by rewrite (guarded_unopened _ _ _ _ _ _ _ vid_cap) by apply Hcap.
Qed.

(** X7: when the YouTube lookup itself raises, the run is one
    diagnostic carrying the exception's text; no capture is opened. *)
Theorem youtube_lookup_failure_is_reported env ui conf model s x :
  button ui = true →
  YouTube env (text_input ui) = Raise x →
  play_youtube_video env ui conf model (initial s) =
    (Ret tt, mkWorld s false [EvError ("Error loading video: " +:+ x)]).
Proof.
  intros Hb Hyt. by rewrite play_youtube_video_unfold, Hb, Hyt.
Qed.

Lemma stored_video_source_tower env ui :
  stored_video_source env ui = Url (path_join (VIDEO_DIR env) "tower.mp4").
Proof.
  unfold stored_video_source, VIDEOS_DICT.
  rewrite map_to_list_singleton. cbn [map fst].
  assert (st_selectbox ["Tower"] (video_choice ui) = "Tower") as ->
    by (by destruct (video_choice ui)).
  by rewrite lookup_singleton_eq.
Qed.

(** X8: the key the selectbox returns is always a key of
    [VIDEOS_DICT]: a stored-video run with the button pressed opens
    [VIDEO_DIR/tower.mp4] whatever the selection, never the path
    "None" that a missed lookup would give; without the button it
    opens nothing. *)
Theorem play_stored_video_opens_tower env ui conf model s :
  captures (trace (play_stored_video env ui conf model (initial s)).2) =
    if button ui then [Url (path_join (VIDEO_DIR env) "tower.mp4")] else [].
Proof.
  rewrite play_stored_video_unfold. destruct (button ui); [|done].
  rewrite <- (stored_video_source_tower env ui). apply guarded_captures.
Qed.
End OtherSources.

(** A webcam whose fourth read fails: three frames shown, four reads,
    one release, no diagnostic; the frames behind the failed read are
    never read. *)
Lemma play_webcam_run_interrupted :
  let env := Scenario.env_of (Capture true Live.interrupted) in
  let run := play_webcam env Scenario.tracking_on (4 # 10)
               Scenario.engine_ok (initial tt) in
  run.1 = Ret tt ∧
  map content (emitted (trace run.2)) = [1; 2; 3]%nat ∧
  errors (trace run.2) = [] ∧
  reads (trace run.2) = 4%nat ∧
  releases (trace run.2) = 1%nat ∧
  opened run.2 = false.
Proof.
  pose proof (play_webcam_run (Scenario.env_of (Capture true Live.interrupted))
    Scenario.tracking_on (4 # 10) Scenario.engine_ok tt Live.interrupted
    eq_refl eq_refl) as H.
  eval_serve H. destruct H as (H1 & _ & H2 & _ & H3 & _ & H4 & H5 & H6).
  cbv zeta. rewrite H1, H2, H3, H4, H5, H6. clear. repeat split; reflexivity.
Defined.

(** An RTSP stream of four frames with an engine fault on the second. *)
Lemma play_rtsp_stream_run_fault :
  let env := Scenario.env_of (Capture true (Scenario.video 4)) in
  let run := play_rtsp_stream env Live.rtsp_ui (4 # 10)
               (Scenario.engine_faulting_on 2) (initial tt) in
  run.1 = Ret tt ∧
  captures (trace run.2) = [Url "rtsp://camera.example/stream"] ∧
  map content (emitted (trace run.2)) = [1]%nat ∧
  errors (trace run.2) = ["Error loading RTSP stream: engine fault"] ∧
  reads (trace run.2) = 2%nat ∧
  releases (trace run.2) = 0%nat.
Proof.
  pose proof (play_rtsp_stream_run (Scenario.env_of (Capture true (Scenario.video 4)))
    Live.rtsp_ui (4 # 10) (Scenario.engine_faulting_on 2) tt (Scenario.video 4)
    eq_refl eq_refl) as H.
  eval_serve H. destruct H as (H1 & _ & _ & H2 & H3 & _ & H4 & H5 & H6).
  cbv zeta. rewrite H1, H2, H3, H4, H5, H6. clear. repeat split; reflexivity.
Defined.

(** A YouTube descriptor offered as audio, as mp4 at 360p and as mp4
    at 720p: the first mp4 stream, the one at 360p, is played. *)
Lemma play_youtube_video_run_example :
  let env := Mixed.youtube_env (Capture true (Scenario.video 2)) in
  let run := play_youtube_video env Live.youtube_ui (4 # 10)
               Scenario.engine_ok (initial tt) in
  run.1 = Ret tt ∧
  captures (trace run.2) = [Url "https://cdn.example/low"] ∧
  map content (emitted (trace run.2)) = [1; 2]%nat ∧
  errors (trace run.2) = [] ∧
  releases (trace run.2) = 1%nat.
Proof.
  assert (Hbefore : Forall (λ x, ¬ Compatible x) [Live.audio]).
  { constructor; [|constructor]. intros H. discriminate H. }
  pose proof (play_youtube_video_run
    (Mixed.youtube_env (Capture true (Scenario.video 2))) Live.youtube_ui (4 # 10)
    Scenario.engine_ok tt [Live.audio] Live.low [Live.hd] (Scenario.video 2)
    eq_refl eq_refl Hbefore eq_refl eq_refl) as H.
  eval_serve H. destruct H as (H1 & _ & _ & H2 & H3 & _ & H4 & _ & H5).
  cbv zeta. rewrite H1, H2, H3, H4, H5. clear. repeat split; reflexivity.
Defined.

(** A camera driver that raises on every open. *)
Lemma open_failure_is_reported_example :
  let env := Scenario.env_of (OpenRaises "device busy") in
  play_webcam env Scenario.tracking_on (4 # 10) Scenario.engine_ok (initial tt) =
    (Ret tt, mkWorld tt false [EvVideoCapture (Device 0);
                               EvError "Error loading video: device busy"]) ∧
  play_rtsp_stream env Live.rtsp_ui (4 # 10) Scenario.engine_ok (initial tt) =
    (Ret tt, mkWorld tt false
               [EvVideoCapture (Url "rtsp://camera.example/stream");
                EvError "Error loading RTSP stream: device busy"]).
Proof.
  cbv zeta. split.
  - exact (proj1 (proj2 (open_failure_is_reported
      (Scenario.env_of (OpenRaises "device busy")) Scenario.tracking_on (4 # 10)
      Scenario.engine_ok tt "device busy" eq_refl (λ _, eq_refl)))).
  - exact (proj2 (proj2 (open_failure_is_reported
      (Scenario.env_of (OpenRaises "device busy")) Live.rtsp_ui (4 # 10)
      Scenario.engine_ok tt "device busy" eq_refl (λ _, eq_refl)))).
Defined.

(** No camera and no stream behind the resolved URL. *)
Lemma unopened_capture_is_silent_example :
  let env := Live.youtube_env (Capture false []) in
  play_webcam env Scenario.tracking_on (4 # 10) Scenario.engine_ok (initial tt) =
    (Ret tt, mkWorld tt false [EvVideoCapture (Device 0)]) ∧
  play_youtube_video env Live.youtube_ui (4 # 10) Scenario.engine_ok (initial tt) =
    (Ret tt, mkWorld tt false [EvVideoCapture (Url "https://cdn.example/hd")]).
Proof.
  cbv zeta. split.
  - exact (proj1 (proj2 (unopened_capture_is_silent
      (Live.youtube_env (Capture false [])) Scenario.tracking_on (4 # 10)
      Scenario.engine_ok tt [] eq_refl (λ _, eq_refl)))).
  - refine (proj2 (proj2 (unopened_capture_is_silent
      (Live.youtube_env (Capture false [])) Live.youtube_ui (4 # 10)
      Scenario.engine_ok tt [] eq_refl (λ _, eq_refl)))
      [Live.audio] Live.hd [] eq_refl _ eq_refl).
    constructor; [|constructor]. intros H. discriminate H.
Defined.

(** A video that cannot be looked up. *)
Lemma youtube_lookup_failure_is_reported_example :
  play_youtube_video Live.offline_env Live.youtube_ui (4 # 10)
    Scenario.engine_ok (initial tt) =
  (Ret tt, mkWorld tt false [EvError "Error loading video: video unavailable"]).
Proof.
  exact (youtube_lookup_failure_is_reported Live.offline_env Live.youtube_ui
           (4 # 10) Scenario.engine_ok tt "video unavailable" eq_refl eq_refl).
Defined.

(** ** The zip batch: extraction *)

Section Extraction.
Context {S : Type}.
Implicit Types (model : Model S) (w : World S) (s : S) (env : UploadEnv S).

Lemma extract_members_unreadable (files : list (string * string)) n x after acc w :
  extract_members (S := S) (map member files ++ mkZipInfo n (Raise x) :: after) acc w
  = (Raise x, w).
Proof.
  revert acc. induction files as [|[fn d] rest IH]; intros acc; simpl.
  - reflexivity.
  - unfold mbind, M_bind, bind, lift, mret, M_ret, ret. simpl. apply IH.
Qed.

Lemma extract_zip_unfold (infolist : list ZipInfo) w :
  extract_zip_in_memory (S := S) (Ret infolist) w = extract_members infolist [] w.
Proof. reflexivity. Qed.

(** X9: [extract_zip_in_memory] hands back one (name, bytes) pair per
    member, in archive order, when every member can be read; it raises
    the exception of the first member that cannot be read, and that of
    [ZipFile] when the upload is not an archive.  It never touches the
    page. *)
Theorem extract_zip_in_memory_results
    (files : list (string * string)) n x after w :
  extract_zip_in_memory (Ret (map member files)) w = (Ret files, w) ∧
  extract_zip_in_memory
    (Ret (map member files ++ mkZipInfo n (Raise x) :: after)) w = (Raise x, w) ∧
  extract_zip_in_memory (S := S) (Raise x) w = (Raise x, w).
Proof.
  split; [|split].
  - rewrite extract_zip_unfold. by rewrite extract_members_readable.
  - rewrite extract_zip_unfold. apply extract_members_unreadable.
  - reflexivity.
Qed.

Lemma app_extraction_raises env ui model s zf x :
  load_model env = Ret model →
  zip_file ui = Some zf →
  extract_zip_in_memory zf (initial s) = (Raise x, initial s) →
  app env ui (initial s) =
    (Ret tt,
     mkWorld s false [EvError ("An error occurred while extracting ZIP file: " +:+ x)]).
Proof.
  intros Hload Hzip Hext. unfold app.
  rewrite Hload, source_radio_is_image, Hzip.
  unfold try_except, mbind, M_bind. unfold bind at 1. by rewrite Hext.
Qed.

(** X10: when the model has loaded and the upload is rejected as an
    archive, or any one member of it cannot be read, the page shows
    exactly one diagnostic and nothing else: no image is sent to the
    engine, not even the readable ones in front of the bad member. *)
Theorem app_extraction_failure env ui model s zf x :
  load_model env = Ret model →
  zip_file ui = Some zf →
  (zf = Raise x ∨
   ∃ files n after, zf = Ret (map member files ++ mkZipInfo n (Raise x) :: after)) →
  app env ui (initial s) =
    (Ret tt,
     mkWorld s false [EvError ("An error occurred while extracting ZIP file: " +:+ x)]).
Proof.
  intros Hload Hzip Hzf. apply (app_extraction_raises env ui model s zf x Hload Hzip).
  destruct Hzf as [->|(files & n & after & ->)]; [reflexivity|].
  rewrite extract_zip_unfold. apply extract_members_unreadable.
Qed.

Lemma detect_images_skips env model confidence files acc w :
  Forall (λ p, is_image_name p.1 = false) files →
  detect_images env model confidence files acc w = (Ret acc, w).
Proof.
  intros H. revert acc w. induction H as [|[n d] rest Hn _ IH]; intros acc w.
  - reflexivity.
  - cbn [detect_images]. cbn [fst] in Hn. rewrite Hn.
    unfold mbind, M_bind, bind, mret, M_ret, ret. apply IH.
Qed.

(** X11: an archive that extracts but holds no image-named member
    leaves the page as it was: no request, no diagnostic, no heading. *)
Theorem app_without_images env ui model s files :
  load_model env = Ret model →
  zip_file ui = Some (Ret (map member files)) →
  Forall (λ p, is_image_name p.1 = false) files →
  app env ui (initial s) = (Ret tt, initial s).
Proof.
  intros Hload Hzip Hno. unfold app.
  rewrite Hload, source_radio_is_image, Hzip.
  unfold try_except, mbind, M_bind. unfold bind at 1.
  rewrite extract_zip_unfold, extract_members_readable. cbn [app].
  unfold bind at 1. rewrite (detect_images_skips _ _ _ _ _ _ Hno).
  reflexivity.
Qed.

Lemma submitted_ext env env' (files : list (string * string)) :
  (∀ d, PIL_open env d = PIL_open env' d) →
  submitted env files = submitted env' files.
Proof.
  intros H. unfold submitted. induction files as [|[n d] rest IH]; [done|].
  simpl. rewrite H.
  destruct (is_image_name n); [destruct (PIL_open env' d) as [img|e]|];
    [exact (f_equal (cons (n, img)) IH)|exact IH|exact IH].
Qed.

(** X12: which images are sent to the engine does not depend on the
    engine: with the same archive, slider and decoder, two engines
    receive the same requests in the same order, whatever either of
    them answers or fails on. *)
Theorem app_requests_ignore_engine env env' ui model model' s s' files :
  load_model env = Ret model →
  load_model env' = Ret model' →
  (∀ d, PIL_open env d = PIL_open env' d) →
  zip_file ui = Some (Ret (map member files)) →
  requests (trace (app env ui (initial s)).2) =
  requests (trace (app env' ui (initial s')).2).
Proof.
  intros Hload Hload' Hpil Hzip.
  assert (Hext : ∀ s0, extract_zip_in_memory (S := S) (Ret (map member files))
                         (initial s0) = (Ret files, initial s0)).
  { intros s0. rewrite extract_zip_unfold. by rewrite extract_members_readable. }
  destruct (app_batch env ui model s _ files Hload Hzip (Hext s))
    as (t & s1 & -> & Hrq & _).
  destruct (app_batch env' ui model' s' _ files Hload' Hzip (Hext s'))
    as (t' & s1' & -> & Hrq' & _).
  cbn [snd trace]. rewrite Hrq, Hrq'.
  unfold batch_requests. by rewrite (submitted_ext env env' files Hpil).
Qed.
End Extraction.

(** ** The zip batch: the shape of the collage *)

Lemma cell_events_shift (x : string * Frame) imgs k :
  cell_events (x :: imgs) (Datatypes.S k) = cell_events imgs k.
Proof. reflexivity. Qed.

(** The cells below the number of images are the images, in order. *)
Lemma cells_images (imgs : list (string * Frame)) :
  concat (map (cell_events imgs) (seq 0 (length imgs))) = map image_event imgs.
Proof.
  induction imgs as [|x imgs IH]; [done|].
  cbn [length seq map concat]. rewrite <- fmap_S_seq.
  change (map ?f (Datatypes.S <$> ?l0)) with (map f (map Datatypes.S l0)).
  rewrite map_map.
  rewrite (map_ext _ (cell_events imgs) (cell_events_shift x imgs)), IH.
  reflexivity.
Qed.

(** The cells from the number of images on are blank. *)
Lemma cells_blank (imgs : list (string * Frame)) (d start : nat) :
  (length imgs ≤ start)%nat →
  concat (map (cell_events imgs) (seq start d)) = replicate d blank_cell.
Proof.
  revert start. induction d as [|d IH]; intros start Hs; [done|].
  cbn [seq map concat replicate]. rewrite IH by lia.
  unfold cell_events. by rewrite (lookup_ge_None_2 imgs start) by done.
Qed.

Section Collage.
Context {S : Type}.
Implicit Types (w : World S).

(** X13: the collage of [n > 0] detected images is the heading, the
    [n] images in order under their file names, and then blank cells
    up to the next multiple of three, at most two of them: the grid
    has [ceil(n/3)] full rows and no image is looked up out of range.
    With no detected image nothing is drawn, not even the heading. *)
Theorem show_collage_trace (detected_images : list (string * Frame)) w :
  steps (show_collage detected_images) w
    (match detected_images with
     | [] => []
     | _ :: _ =>
         EvWrite "Detected Images:"
         :: map image_event detected_images
         ++ replicate (3 * ((length detected_images + 2) / 3)
                       - length detected_images) blank_cell
     end) ∧
  (3 * ((length detected_images + 2) / 3) - length detected_images ≤ 2)%nat.
Proof.
  split.
  2: { pose proof (Nat.div_mod_eq (length detected_images + 2) 3).
       pose proof (Nat.mod_upper_bound (length detected_images + 2) 3). lia. }
  destruct detected_images as [|x imgs] eqn:Himgs.
  { unfold steps, show_collage. destruct w; simpl. by rewrite app_nil_r. }
  rewrite <- Himgs. assert (Hne : detected_images ≠ []) by (by rewrite Himgs).
  clear Himgs x imgs.
  unfold show_collage. rewrite bool_decide_eq_true_2 by done.
  set (n := length detected_images).
  replace (n + 2)%nat with (n + 3 - 1)%nat by lia.
  set (rows := ((n + 3 - 1) / 3)%nat).
  assert (Hrows : (n ≤ rows * 3)%nat).
  { unfold rows. pose proof (Nat.div_mod_eq (n + 3 - 1) 3).
    pose proof (Nat.mod_upper_bound (n + 3 - 1) 3). lia. }
  pose (inner := λ i : nat,
          concat (map (λ j, cell_events detected_images (i * 3 + j)) (seq 0 3))).
  assert (Hcells : concat (map inner (seq 0 rows)) =
            map image_event detected_images ++ replicate (3 * rows - n) blank_cell).
  { unfold inner. rewrite (rows_flatten (cell_events detected_images) rows).
    replace (rows * 3)%nat with (n + (rows * 3 - n))%nat by lia.
    rewrite (seq_app n (rows * 3 - n) 0), map_app, concat_app.
    unfold n at 1. rewrite cells_images.
    rewrite (cells_blank detected_images (rows * 3 - n) (0 + n)) by (fold n; lia).
    do 2 f_equal. lia. }
  rewrite <- Hcells.
  unfold steps, mbind, M_bind. unfold bind at 1. unfold emit at 1.
  cbv beta iota zeta. fold n. fold rows.
  match goal with |- for_each _ ?b ?w0 = _ =>
    pose proof (for_each_steps (seq 0 rows) b inner w0) as H end.
  unfold steps in H. cbn [engine opened trace] in H.
  rewrite H; [by rewrite <- app_assoc|].
  intros i w'. unfold inner. apply for_each_steps. intros j w''.
  unfold steps, cell_events, emit, raise.
  destruct (Nat.ltb_spec (i * 3 + j) n) as [Hlt|Hge].
  - destruct (lookup_lt_is_Some_2 detected_images (i * 3 + j) Hlt) as [[fn img] ->].
    reflexivity.
  - rewrite (lookup_ge_None_2 detected_images (i * 3 + j)) by done. reflexivity.
Qed.
End Collage.

(** ** The zip batch: names in folders *)

Lemma string_app_assoc (a b c : string) : (a +:+ b) +:+ c = a +:+ (b +:+ c).
Proof.
  induction a as [|x a IH]; [done|].
  change (String x ((a +:+ b) +:+ c) = String x (a +:+ (b +:+ c))). by rewrite IH.
Qed.

Lemma string_last_app (a b : string) :
  b ≠ "" → string_last (a +:+ b) = string_last b.
Proof.
  intros Hb. induction a as [|x a IH]; [done|].
  change (string_last (String x (a +:+ b)) = string_last b).
  destruct (a +:+ b) as [|y r] eqn:Hab.
  - destruct a; [|discriminate Hab]. by destruct b.
  - exact IH.
Qed.

Lemma py_endswith_last (s suffix : string) :
  py_endswith s suffix = true → suffix ≠ "" →
  string_last s = string_last suffix.
Proof.
  intros H Hs. apply py_endswith_spec in H as [p ->]. by apply string_last_app.
Qed.

(** X14: an image name stays one under any folder prefix, so images
    inside folders of the archive are processed; and no name that ends
    in a slash, as the entry of a folder itself does, is an image
    name. *)
Theorem image_names_in_folders (folder name entry : string) :
  is_image_name name = true →
  is_image_name (folder +:+ name) = true ∧
  is_image_name (entry +:+ "/") = false.
Proof.
  intros Hname. split.
  - apply is_image_name_spec in Hname as (stem & ext & -> & Hext).
    apply is_image_name_spec. exists (folder +:+ stem), ext.
    split; [by rewrite string_app_assoc|done].
  - destruct (is_image_name (entry +:+ "/")) eqn:H; [|done].
    unfold is_image_name, py_endswith_any in H. apply existsb_exists in H.
    destruct H as (suffix & Hin & Hend).
    assert (Hlast : string_last (py_lower (entry +:+ "/")) = Some "/"%char).
    { rewrite py_lower_app. by rewrite string_last_app. }
    assert (Hsuf : suffix ≠ "").
    { intros ->. simpl in Hin. intuition discriminate. }
    rewrite (py_endswith_last _ _ Hend Hsuf) in Hlast.
    simpl in Hin. destruct Hin as [<-|[<-|[<-|[<-|[<-|[]]]]]]; discriminate Hlast.
Qed.

Lemma image_names_in_folders_example :
  is_image_name "A.JPG" = true ∧
  is_image_name "tower/2024/A.JPG" = true ∧
  is_image_name "scans/" = false.
Proof.
  split; [reflexivity|].
  exact (image_names_in_folders "tower/2024/" "A.JPG" "scans" eq_refl).
Defined.

(** ** The zip batch on concrete archives *)

Lemma app_extraction_failure_example :
  app Batch.env Archive.damaged_ui (initial tt) =
    (Ret tt,
     mkWorld tt false
       [EvError "An error occurred while extracting ZIP file: Bad CRC-32 for file 'c.jpg'"]).
Proof.
  apply (app_extraction_failure Batch.env Archive.damaged_ui Scenario.engine_ok tt
           (Ret Archive.damaged) "Bad CRC-32 for file 'c.jpg'" eq_refl eq_refl).
  right. by exists [("a.jpg", "x"); ("b.png", "xx")], "c.jpg", [].
Defined.

Lemma app_without_images_example :
  app Batch.env Archive.documents_ui (initial tt) = (Ret tt, initial tt).
Proof.
  apply (app_without_images Batch.env Archive.documents_ui Scenario.engine_ok tt
           Archive.documents eq_refl eq_refl).
  repeat constructor.
Defined.

Lemma app_requests_ignore_engine_example :
  requests (trace (app Batch.env Batch.ui (initial tt)).2) =
  requests (trace (app Archive.failing_env Batch.ui (initial tt)).2).
Proof.
  exact (app_requests_ignore_engine Batch.env Archive.failing_env Batch.ui
           Scenario.engine_ok (Scenario.engine_faulting_on 1) tt tt Batch.files
           eq_refl eq_refl (λ _, eq_refl) eq_refl).
Defined.

(** ** The menu of [streamlit_app.py] *)

Section Menu.
Context {S : Type}.

Lemma run_selected_skips (before : list (Page S)) rest (selected : string) :
  Forall (λ p, page_title p ≠ selected) before →
  run_selected (before ++ rest) selected = run_selected rest selected.
Proof.
  induction 1 as [|p before Hp _ IH]; [done|].
  rewrite <- app_comm_cons. cbn [run_selected].
  apply String.eqb_neq in Hp. by rewrite Hp.
Qed.

(** X15: the loop over [apps] runs the first page whose title is the
    selected one and no other, and runs nothing when no title matches;
    so a script run is the detection page for every position of the
    menu but the second, which gives the map page: one page per run,
    never both. *)
Theorem menu_runs_one_page (upload2_app upload_app : M S unit) (menu_choice : nat) :
  (∀ before (page : Page S) after,
     Forall (λ p, page_title p ≠ page_title page) before →
     run_selected (before ++ page :: after) (page_title page) = page_func page) ∧
  (∀ pages selected,
     Forall (λ p : Page S, page_title p ≠ selected) pages →
     run_selected pages selected = mret tt) ∧
  streamlit_app upload2_app upload_app menu_choice =
    if Nat.eqb menu_choice 1 then upload_app else upload2_app.
Proof.
  split; [|split].
  - intros before page after Hbefore. rewrite run_selected_skips by done.
    cbn [run_selected]. by rewrite String.eqb_refl.
  - intros pages selected Hnone.
    rewrite <- (app_nil_r pages). by rewrite run_selected_skips.
  - by destruct menu_choice as [|[|k]].
Qed.
End Menu.

(** The default menu position on the concrete archive of [Batch]: the
    script run is the run of the detection page. *)
Lemma menu_runs_one_page_example :
  streamlit_app (app Batch.env Batch.ui) map_page 0 (initial tt)
  = app Batch.env Batch.ui (initial tt) ∧
  streamlit_app (app Batch.env Batch.ui) map_page 1 (initial tt)
  = (Ret tt, mkWorld tt false [EvWrite "Upload Vector Data"]).
Proof.
  split.
  - by rewrite (proj2 (proj2 (menu_runs_one_page (app Batch.env Batch.ui) map_page 0))).
  - by rewrite (proj2 (proj2 (menu_runs_one_page (app Batch.env Batch.ui) map_page 1))).
Defined.

(** ** [extract_image_link] *)

Lemma strip_prefix_spec (prefix s rest : string) :
  strip_prefix prefix s = Some rest ↔ s = prefix +:+ rest.
Proof.
  revert s. induction prefix as [|a prefix IH]; intros s.
  - simpl. split; [by intros [= ->]|by intros ->].
  - destruct s as [|b s]; simpl.
    + split; [done|]. intros H. discriminate H.
    + destruct (Ascii.eqb_spec a b) as [->|Hab].
      * rewrite IH. split; [by intros ->|]. intros H.
        change (String b s = String b (prefix +:+ rest)) in H. by injection H.
      * split; [done|]. intros H.
        change (String b s = String a (prefix +:+ rest)) in H. by injection H.
Qed.

Lemma span_unquoted_spec (s run rest : string) :
  span_unquoted s = (run, rest) →
  s = run +:+ rest ∧ unquoted run = true ∧
  (rest = "" ∨ ∃ rest', rest = String quote rest').
Proof.
  revert run rest. induction s as [|c s IH]; intros run rest; simpl.
  - intros [= <- <-]. auto.
  - destruct (Ascii.eqb_spec c quote) as [->|Hc].
    + intros [= <- <-]. split; [done|]. split; [done|]. right. by eexists.
    + destruct (span_unquoted s) as [run' rest'] eqn:Hs. intros [= <- <-].
      destruct (IH run' rest' eq_refl) as (-> & Hrun & Hrest).
      split; [done|]. split; [|done]. simpl.
      apply Ascii.eqb_neq in Hc. by rewrite Hc.
Qed.

Lemma span_unquoted_app (run post : string) :
  unquoted run = true →
  span_unquoted (run +:+ String quote post) = (run, String quote post).
Proof.
  induction run as [|c run IH]; intros Hrun.
  - reflexivity.
  - simpl in Hrun. apply andb_true_iff in Hrun as [Hc Hrun].
    change (span_unquoted (String c (run +:+ String quote post))
            = (String c run, String quote post)).
    simpl. apply negb_true_iff in Hc. rewrite Hc. by rewrite IH.
Qed.

Lemma match_img_src_sound (s link : string) :
  match_img_src s = Some link →
  link ≠ "" ∧ unquoted link = true ∧
  ∃ post, s = IMG_SRC +:+ link +:+ String quote post.
Proof.
  unfold match_img_src.
  destruct (strip_prefix IMG_SRC s) as [after|] eqn:Hp; [|done].
  apply strip_prefix_spec in Hp as ->.
  destruct (span_unquoted after) as [run rest] eqn:Hs.
  destruct (span_unquoted_spec _ _ _ Hs) as (-> & Hrun & Hrest).
  destruct run as [|c run]; [done|]. destruct rest as [|q rest]; [done|].
  intros [= <-]. split; [done|]. split; [done|].
  destruct Hrest as [H|[rest' [= -> ->]]]; [discriminate H|]. by exists rest'.
Qed.

Lemma match_img_src_complete (link post : string) :
  link ≠ "" → unquoted link = true →
  match_img_src (IMG_SRC +:+ link +:+ String quote post) = Some link.
Proof.
  intros Hne Hun. unfold match_img_src.
  rewrite (proj2 (strip_prefix_spec IMG_SRC _ (link +:+ String quote post)) eq_refl).
  rewrite span_unquoted_app by done. by destruct link.
Qed.

Lemma re_search_img_src_unfold (s : string) :
  re_search_img_src s =
    match match_img_src s with
    | Some group1 => Some group1
    | None =>
        match s with
        | EmptyString => None
        | String _ s' => re_search_img_src s'
        end
    end.
Proof. by destruct s. Qed.

(** X16: a link returned by [extract_image_link] is not empty, holds no
    double quote, and stands in the description between the opening
    [IMG_SRC] and a closing double quote. *)
Theorem extract_image_link_sound (description link : string) :
  extract_image_link description = Some link →
  link ≠ "" ∧ unquoted link = true ∧
  ∃ pre post, description = pre +:+ IMG_SRC +:+ link +:+ String quote post.
Proof.
  unfold extract_image_link.
  destruct (re_search_img_src description) as [g|] eqn:H; [|done].
  intros [= ->]. revert H.
  induction description as [|c d IH]; rewrite re_search_img_src_unfold.
  - done.
  - destruct (match_img_src (String c d)) as [g|] eqn:Hm.
    + intros [= ->].
      destruct (match_img_src_sound _ _ Hm) as (? & ? & post & Hpost).
      split; [done|]. split; [done|]. by exists "", post.
    + intros H. destruct (IH H) as (? & ? & pre & post & ->).
      split; [done|]. split; [done|]. by exists (String c pre), post.
Qed.

(** X17: whenever the description holds the opening [IMG_SRC], a
    non-empty run without double quote and a closing double quote, a
    link is found. *)
Theorem extract_image_link_complete (pre link post : string) :
  link ≠ "" → unquoted link = true →
  is_Some (extract_image_link (pre +:+ IMG_SRC +:+ link +:+ String quote post)).
Proof.
  intros Hne Hun. unfold extract_image_link.
  assert (H : is_Some (re_search_img_src
                         (pre +:+ IMG_SRC +:+ link +:+ String quote post))).
  { induction pre as [|c pre IH].
    - change ("" +:+ ?x) with x. rewrite re_search_img_src_unfold.
      by rewrite match_img_src_complete.
    - change (String c pre +:+ ?x) with (String c (pre +:+ x)).
      rewrite re_search_img_src_unfold.
      destruct (match_img_src _); [done|exact IH]. }
  destruct (re_search_img_src _); [done|]. by destruct H.
Qed.

Lemma unquoted_get (p : string) (n : nat) :
  unquoted p = true → String.get n p ≠ Some quote.
Proof.
  revert n. induction p as [|c p IH]; intros n Hp; [done|].
  simpl in Hp. apply andb_true_iff in Hp as [Hc Hp].
  destruct n as [|n]; simpl; [|by apply IH].
  intros [= ->]. by rewrite Ascii.eqb_refl in Hc.
Qed.

Lemma img_src_get (m : nat) (x : string) :
  (m ≤ 8)%nat → String.get m (IMG_SRC +:+ x) ≠ Some quote.
Proof.
  intros Hm.
  do 9 (destruct m as [|m]; [discriminate|]). lia.
Qed.

(** No match starts inside an unquoted stretch in front of the opening. *)
Lemma match_img_src_unquoted_head (c : ascii) (p x : string) :
  unquoted (String c p) = true →
  match_img_src (String c p +:+ IMG_SRC +:+ x) = None.
Proof.
  intros Hp. unfold match_img_src.
  destruct (strip_prefix IMG_SRC (String c p +:+ IMG_SRC +:+ x)) as [r|] eqn:Hs;
    [|done].
  exfalso. apply strip_prefix_spec in Hs.
  assert (Hq : String.get 9 (String c p +:+ IMG_SRC +:+ x) = Some quote)
    by (by rewrite Hs).
  clear Hs. revert Hq.
  destruct (Nat.lt_ge_cases 9 (String.length (String c p))) as [Hlt|Hge].
  - rewrite <- (append_correct1 (String c p) (IMG_SRC +:+ x) 9 Hlt).
    by apply unquoted_get.
  - replace 9%nat with (9 - String.length (String c p)
                        + String.length (String c p))%nat at 1 by lia.
    rewrite <- (append_correct2 (String c p) (IMG_SRC +:+ x)).
    apply img_src_get. simpl. lia.
Qed.

(** The search skips an unquoted stretch and stops at the opening
    behind it. *)
Lemma re_search_img_src_first (pre link post : string) :
  unquoted pre = true → link ≠ "" → unquoted link = true →
  re_search_img_src (pre +:+ IMG_SRC +:+ link +:+ String quote post) = Some link.
Proof.
  intros Hpre Hne Hun. induction pre as [|c pre IH].
  - change ("" +:+ ?x) with x. rewrite re_search_img_src_unfold.
    by rewrite match_img_src_complete.
  - rewrite re_search_img_src_unfold.
    rewrite match_img_src_unquoted_head by done.
    change (String c pre +:+ ?x) with (String c (pre +:+ x)).
    apply IH. simpl in Hpre. by apply andb_true_iff in Hpre as [_ ?].
Qed.

Lemma extract_image_link_of_search (description link : string) :
  re_search_img_src description = Some link →
  extract_image_link description = Some link.
Proof. intros H. unfold extract_image_link. by rewrite H. Qed.

(** X18: when nothing in front of the first opening [IMG_SRC] holds a
    double quote, the link returned is the one of that opening. *)
Theorem extract_image_link_first (pre link post : string) :
  unquoted pre = true → link ≠ "" → unquoted link = true →
  extract_image_link (pre +:+ IMG_SRC +:+ link +:+ String quote post) = Some link.
Proof.
  intros Hpre Hne Hun. unfold extract_image_link.
  by rewrite (re_search_img_src_first pre link post Hpre Hne Hun).
Qed.

(** X19: the popup that [app] builds for a row with an image link holds
    the link in the form [extract_image_link] reads: the link is read
    back from the popup, whatever the description and the name. *)
Theorem popup_link_round_trip (description image_link name : string) :
  image_link ≠ "" → unquoted image_link = true →
  extract_image_link (popup_content description image_link name)
  = Some image_link.
Proof.
  intros Hne Hun. unfold popup_content.
  apply String.eqb_neq in Hne. rewrite Hne. cbn [negb].
  change ("" +:+ ?x) with x. rewrite !string_app_assoc.
  change (String quote image_link +:+ ?x) with (String quote (image_link +:+ x)).
  change ("<img src=" +:+ String quote ?x) with ("" +:+ IMG_SRC +:+ x).
  apply extract_image_link_of_search.
  apply re_search_img_src_first; [done| |done].
  by apply String.eqb_neq.
Qed.

Lemma py_in_unfold (needle haystack : string) :
  py_in needle haystack =
    match strip_prefix needle haystack with
    | Some _ => true
    | None =>
        match haystack with
        | EmptyString => false
        | String _ haystack' => py_in needle haystack'
        end
    end.
Proof. by destruct haystack. Qed.

Lemma py_in_spec (needle haystack : string) :
  py_in needle haystack = true ↔ ∃ a b, haystack = a +:+ needle +:+ b.
Proof.
  split.
  - induction haystack as [|c h IH]; rewrite py_in_unfold.
    + destruct (strip_prefix needle "") as [r|] eqn:Hs; [|done].
      apply strip_prefix_spec in Hs. intros _. by exists "", r.
    + destruct (strip_prefix needle (String c h)) as [r|] eqn:Hs.
      * apply strip_prefix_spec in Hs. intros _. by exists "", r.
      * intros H. destruct (IH H) as (a & b & ->). by exists (String c a), b.
  - intros (a & b & ->). induction a as [|c a IH]; rewrite py_in_unfold.
    + change ("" +:+ ?x) with x.
      by rewrite (proj2 (strip_prefix_spec needle (needle +:+ b) b) eq_refl).
    + destruct (strip_prefix needle _); [done|exact IH].
Qed.

(** X20: for a row whose description is a text, the marker is red
    exactly when the text holds the word Rotten, spelled with that
    capital, anywhere, and blue otherwise; for a row whose description
    is missing (NaN or None) the test raises and no colour is chosen. *)
Theorem icon_color_red (description : Cell) :
  match description with
  | CellText s =>
      (icon_color description = Ret "red" ∨ icon_color description = Ret "blue") ∧
      (icon_color description = Ret "red" ↔ ∃ a b, s = a +:+ "Rotten" +:+ b)
  | CellNaN | CellNone => ∃ x, icon_color description = Raise x
  end.
Proof.
  destruct description as [s| |]; [|by eexists|by eexists].
  cbn [icon_color]. rewrite <- py_in_spec.
  destruct (py_in "Rotten" s); split; auto; split; done.
Qed.

(** A description as an exported placemark carries it. *)
Lemma extract_image_link_sound_example :
  extract_image_link
    ("<div><img src=" +:+ String quote ("files/pole 7.jpg"
       +:+ String quote " width=300/>Rotten cross-arm</div>"))
  = Some "files/pole 7.jpg" ∧
  "files/pole 7.jpg" ≠ "" ∧ unquoted "files/pole 7.jpg" = true ∧
  ∃ pre post,
    "<div><img src=" +:+ String quote ("files/pole 7.jpg"
       +:+ String quote " width=300/>Rotten cross-arm</div>")
    = pre +:+ IMG_SRC +:+ "files/pole 7.jpg" +:+ String quote post.
Proof.
  split; [reflexivity|].
  exact (extract_image_link_sound
           ("<div><img src=" +:+ String quote ("files/pole 7.jpg"
              +:+ String quote " width=300/>Rotten cross-arm</div>"))
           "files/pole 7.jpg" eq_refl).
Defined.

(** An empty source in front of a good one: a link is still found. *)
Lemma extract_image_link_complete_example :
  is_Some (extract_image_link
             (("<img src=" +:+ String quote (String quote "/>"))
              +:+ IMG_SRC +:+ "b.png" +:+ String quote "/>")).
Proof.
  apply (extract_image_link_complete
           ("<img src=" +:+ String quote (String quote "/>")) "b.png" "/>");
    [discriminate|reflexivity].
Defined.

Lemma extract_image_link_first_example :
  extract_image_link
    ("<div>" +:+ IMG_SRC +:+ "a.png" +:+ String quote
       ("/>" +:+ IMG_SRC +:+ "b.png" +:+ String quote "/></div>"))
  = Some "a.png".
Proof.
  apply (extract_image_link_first "<div>" "a.png"
           ("/>" +:+ IMG_SRC +:+ "b.png" +:+ String quote "/></div>"));
    [reflexivity|discriminate|reflexivity].
Defined.

Lemma popup_link_round_trip_example :
  extract_image_link
    (popup_content "Rotten cross-arm" "files/pole 7.jpg" "1.62 N , 111.46 E")
  = Some "files/pole 7.jpg".
Proof.
  apply (popup_link_round_trip "Rotten cross-arm" "files/pole 7.jpg"
           "1.62 N , 111.46 E"); [discriminate|reflexivity].
Defined.

Example icon_color_examples :
  icon_color (CellText "Rotten cross-arm") = Ret "red" ∧
  icon_color (CellText "pole, Rotten") = Ret "red" ∧
  icon_color (CellText "rotten cross-arm") = Ret "blue" ∧
  icon_color (CellText "") = Ret "blue" ∧
  icon_color CellNaN = Raise "argument of type 'float' is not iterable".
Proof. repeat split; reflexivity. Qed.

(** ** The fault panel of the map page *)

Section Panel.
Context {S : Type}.
Implicit Types (s : S) (env : PanelEnv S).

End Panel.

(** ** YouTube: the resolution keyword (C7) *)

(** C7 on the failing input: a video offered as mp4 at 360p and, after
    it, as mp4 at 720p.  The integer 720 passed as [res] adds no
    criterion to the query, so the 360p stream is the one opened, with
    no diagnostic; and when 360p is all there is, the run does not fail
    either but plays that stream. *)
Theorem play_youtube_video_ignores_resolution :
  let run := play_youtube_video
               (Mixed.youtube_env (Capture true (Scenario.video 2)))
               Live.youtube_ui (4 # 10) Scenario.engine_ok (initial tt) in
  let run' := play_youtube_video
                (Mixed.low_only_env (Capture true (Scenario.video 2)))
                Live.youtube_ui (4 # 10) Scenario.engine_ok (initial tt) in
  res Live.low = PyStr "360p" ∧ res Live.hd = PyStr "720p" ∧
  captures (trace run.2) = [Url (url Live.low)] ∧
  errors (trace run.2) = [] ∧
  captures (trace run'.2) = [Url (url Live.low)] ∧
  errors (trace run'.2) = [] ∧
  length (emitted (trace run'.2)) = 2%nat.
Proof. vm_compute. repeat split; reflexivity. Qed.

(** ** Every frame is resized before inference (C3) *)

Lemma serve_no_fault {S} (model : Model S) s reqs :
  (serve model s reqs).1.2 = None →
  length (serve model s reqs).1.1 = length reqs.
Proof.
  revert s. induction reqs as [|r rest IH]; intros s; simpl; [done|].
  destruct (model s r) as [[f|e] s']; simpl; [|done].
  specialize (IH s'). destruct (serve model s' rest) as [[fs e'] s'']. simpl in *.
  intros He. by rewrite IH.
Qed.

Lemma resized_standard (image : Frame) : resized image = standard image.
Proof. reflexivity. Qed.

Section Resizing.
Context {S : Type}.
Implicit Types (model : Model S) (s : S) (w : World S).

Lemma guarded_feeds prefix env src conf model trk tracker vid_cap s :
  VideoCapture env src = Capture true vid_cap →
  feeds_standard (guarded prefix env src conf model trk tracker (initial s)) vid_cap.
Proof.
  intros Hcap. unfold feeds_standard. cbv zeta.
  pose proof (guarded_run prefix env src conf model trk tracker vid_cap s Hcap) as H.
  cbv zeta in H.
  set (reqs := map (λ f, inference_request conf (resized f) (Some trk) tracker)
                   (readable vid_cap)) in *.
  pose proof (serve_faults_length model s reqs) as Hlen.
  pose proof (serve_no_fault model s reqs) as Hnone.
  destruct (serve model s reqs) as [[fs e] s'].
  cbn [fst snd] in Hlen, Hnone.
  destruct H as (_ & _ & _ & _ & -> & -> & -> & _ & _).
  assert (Hreqs : length reqs = length (readable vid_cap))
    by (unfold reqs; by rewrite length_map).
  assert (Himg : map request_image reqs = map standard (readable vid_cap)).
  { unfold reqs. rewrite map_map. apply map_ext. intros f.
    unfold inference_request. by destruct (truthy _). }
  assert (Hsent : length (map request_image (take (length fs + faults e) reqs))
                  = (length fs + faults e)%nat).
  { rewrite length_map, length_take. lia. }
  rewrite Hsent. split; [|split].
  - change (map request_image (take ?n reqs))
      with (request_image <$> take n reqs).
    change (map standard (take ?n ?l)) with (standard <$> take n l).
    rewrite !fmap_take.
    change (request_image <$> reqs) with (map request_image reqs).
    by rewrite Himg.
  - by destruct e.
  - destruct e as [x|]; [done|]. intros _. cbn [faults].
    rewrite Nat.add_0_r, Hnone by done. exact Hreqs.
Qed.

(** C3: one call of [_display_detected_frames] on a frame of any size
    makes exactly one request, and its image is that frame at width 720
    and height 405, which is round(720 * 9/16).  In a run of any of the
    four source kinds on a capture that opens, the images of the
    requests are, in order, the frames read, each at 720 by 405; every
    frame read is sent, up to the one on which the engine fails. *)
Theorem every_frame_is_resized_before_inference
    env ui conf model s vid_cap before st after image trk tracker w :
  button ui = true →
  (∀ src, VideoCapture env src = Capture true vid_cap) →
  YouTube env (text_input ui) = Ret (before ++ st :: after) →
  Forall (λ x, ¬ Compatible x) before → Compatible st →
  spec_round (720 * (9 # 16)) = 405 ∧
  map request_image
      (requests (trace (_display_detected_frames conf model image trk tracker w).2))
    = map request_image (requests (trace w))
      ++ [mkFrame 720 405 (content image) (channels image)] ∧
  feeds_standard (play_stored_video env ui conf model (initial s)) vid_cap ∧
  feeds_standard (play_webcam env ui conf model (initial s)) vid_cap ∧
  feeds_standard (play_rtsp_stream env ui conf model (initial s)) vid_cap ∧
  feeds_standard (play_youtube_video env ui conf model (initial s)) vid_cap.
Proof.
  intros Hb Hcap Hyt Hbefore Hst.
  split; [reflexivity|]. split.
  { rewrite display_detected_frames_run. cbv zeta.
    destruct (model (engine w) _) as [[f|e] s']; cbn [snd trace];
      rewrite ?requests_app; cbn [requests omap list_omap];
      rewrite ?app_nil_r, map_app; cbn [map];
      unfold inference_request; by destruct (truthy trk). }
  rewrite play_stored_video_unfold, play_webcam_unfold, play_rtsp_stream_unfold,
    play_youtube_video_unfold, Hb, Hyt,
    (first_compatible before st after Hbefore Hst).
  split; [|split; [|split]]; apply guarded_feeds, Hcap.
Qed.
End Resizing.

(** A capture of three frames of three sizes, on every source kind. *)
Lemma every_frame_is_resized_before_inference_mixed :
  let env := Mixed.youtube_env (Capture true Mixed.video) in
  let sent (run : Outcome unit * World unit) :=
    map request_image (requests (trace run.2)) in
  let expected := [mkFrame 720 405 1 BGR; mkFrame 720 405 2 BGR;
                   mkFrame 720 405 3 BGR] in
  sent (play_stored_video env Live.youtube_ui (4 # 10) Scenario.engine_ok (initial tt))
    = expected ∧
  sent (play_webcam env Live.youtube_ui (4 # 10) Scenario.engine_ok (initial tt))
    = expected ∧
  sent (play_rtsp_stream env Live.youtube_ui (4 # 10) Scenario.engine_ok (initial tt))
    = expected ∧
  sent (play_youtube_video env Live.youtube_ui (4 # 10) Scenario.engine_ok (initial tt))
    = expected.
Proof.
  assert (Hbefore : Forall (λ x, ¬ Compatible x) [Live.audio]).
  { constructor; [|constructor]. intros H. discriminate H. }
  destruct (every_frame_is_resized_before_inference
    (Mixed.youtube_env (Capture true Mixed.video)) Live.youtube_ui (4 # 10)
    Scenario.engine_ok tt Mixed.video [Live.audio] Live.low [Live.hd]
    (mkFrame 1920 1080 1 BGR) None None (initial tt)
    eq_refl (λ _, eq_refl) eq_refl Hbefore eq_refl)
    as (_ & _ & (H1 & _) & (H2 & _) & (H3 & _) & (H4 & _)).
  cbv zeta in *. clear Hbefore.
  repeat split; (etransitivity; [eassumption|]); clear; vm_compute; reflexivity.
Defined.
